(** * Nutritional analysis: label parser, portion-weight estimator and
      nutrient lookup client

    A shallow embedding of [label_extraction.py] (class [LabelExtractor])
    and [food_classifier.py] (class [FoodClassifier]), with the properties
    of the extraction-and-normalisation pipeline proved about it.

    Conventions of the embedding:
    - a Python [str] is a [string]; a character is a code point below 256;
    - a Python number (int or float) is an exact rational [Q]: the float
      operations [*], [/] and [**] are the exact ones and [round(x, 2)] is
      rounding to the nearest hundredth, ties to even;
    - [None] is [None]; a dict read with [.get] is a [gmap];
    - [print] appends to a log, an HTTP request appends to a request log,
      an uncaught exception is an explicit outcome. *)

From Stdlib Require Import String Ascii List ZArith QArith Qpower Qminmax Bool Lia Lqa.
From stdpp Require Import base option list strings gmap.

Local Open Scope string_scope.

(** ** Part I. Regular expressions, as [re.search] runs them *)

Module Re.

(** A character class is its membership test. *)
Definition cls := ascii -> bool.

Definition code (c : ascii) : nat := nat_of_ascii c.

(** [\d] on a [str] pattern: the decimal digits; below 256 these are 0-9. *)
Definition digit : cls := fun c => (48 <=? code c)%nat && (code c <=? 57)%nat.

(** [\s] on a [str] pattern: what [str.isspace] accepts; below 256 these are
    TAB, LF, VT, FF, CR, the separators FS, GS, RS, US, the space, NEL and
    the no-break space. *)
Definition space : cls := fun c =>
  let n := code c in
  ((9 <=? n)%nat && (n <=? 13)%nat) || ((28 <=? n)%nat && (n <=? 32)%nat)
  || (n =? 133)%nat || (n =? 160)%nat.

(** [.] without DOTALL: anything but a line feed. *)
Definition dot : cls := fun c => negb (code c =? 10)%nat.

(** [[^\n%]]. *)
Definition not_nl_pct : cls := fun c => negb (code c =? 10)%nat && negb (code c =? 37)%nat.

(** The fragment of the pattern language that the two modules use.
    Quantified sub-patterns are always single character classes there
    ([\s*], [\d+], [\d*], [[^\n%]+?]); optional parts may be any pattern.
    [Group i r] is the capturing group whose text lands at index [i] of
    [match.groups()] (so Python's group number minus one). *)
Inductive regex : Type :=
| Eps
| Lit (c : ascii)
| Cset (p : cls)
| Seq (r1 r2 : regex)
| Alt (r1 r2 : regex)
| Opt (r : regex)
| Star (p : cls)
| Plus (p : cls)
| PlusLazy (p : cls)
| Group (i : nat) (r : regex).

Fixpoint lit (s : string) : regex :=
  match s with
  | EmptyString => Eps
  | String c EmptyString => Lit c
  | String c s' => Seq (Lit c) (lit s')
  end.

Fixpoint seq (rs : list regex) : regex :=
  match rs with
  | [] => Eps
  | [r] => r
  | r :: rs' => Seq r (seq rs')
  end.

Fixpoint ngroups (r : regex) : nat :=
  match r with
  | Seq r1 r2 | Alt r1 r2 => ngroups r1 + ngroups r2
  | Opt r' => ngroups r'
  | Group _ r' => S (ngroups r')
  | _ => 0
  end.

(** The value of [match.groups()]: one entry per group, [None] for a group
    that took no part in the match. *)
Definition groups := list (option string).

Definition text_of (acc : list ascii) : string := string_of_list_ascii (rev acc).

Section Backtracking.
Context {R : Type}.

  (** A continuation receives the rest of the subject, the characters
      consumed since the innermost open group started (latest first) and the
      groups closed so far. *)
Definition cont : Type := string -> list ascii -> groups -> option R.

  (** Greedy [p*]: take a character when there is one, give it back when the
      rest of the pattern fails. *)
Fixpoint star (p : cls) (s : string) (acc : list ascii) (g : groups) (k : cont) : option R :=
    match s with
    | String a s' =>
        if p a then
          match star p s' (a :: acc) g k with
          | Some m => Some m
          | None => k s acc g
          end
        else k s acc g
    | EmptyString => k s acc g
    end.

  (** Lazy [p*?]: try the rest of the pattern first, take a character only
      when that fails. *)
Fixpoint star_lazy (p : cls) (s : string) (acc : list ascii) (g : groups) (k : cont) : option R :=
    match k s acc g with
    | Some m => Some m
    | None =>
        match s with
        | String a s' => if p a then star_lazy p s' (a :: acc) g k else None
        | EmptyString => None
        end
    end.

Definition one (p : cls) (s : string) (acc : list ascii) (g : groups)
      (k : cont) : option R :=
    match s with
    | String a s' => if p a then k s' (a :: acc) g else None
    | EmptyString => None
    end.

  (** The backtracking matcher: alternatives left to right, a greedy
      quantifier longest first, a lazy one shortest first; the first complete
      match found in that order is the match. *)
Fixpoint run (r : regex) (s : string) (acc : list ascii) (g : groups) (k : cont) : option R :=
    match r with
    | Eps => k s acc g
    | Lit c => one (Ascii.eqb c) s acc g k
    | Cset p => one p s acc g k
    | Seq r1 r2 => run r1 s acc g (fun s' acc' g' => run r2 s' acc' g' k)
    | Alt r1 r2 =>
        match run r1 s acc g k with
        | Some m => Some m
        | None => run r2 s acc g k
        end
    | Opt r' =>
        match run r' s acc g k with
        | Some m => Some m
        | None => k s acc g
        end
    | Star p => star p s acc g k
    | Plus p => one p s acc g (fun s' acc' g' => star p s' acc' g' k)
    | PlusLazy p => one p s acc g (fun s' acc' g' => star_lazy p s' acc' g' k)
    | Group i r' =>
        run r' s [] g (fun s' acc' g' =>
          k s' (acc' ++ acc)%list (<[i := Some (text_of acc')]> g'))
    end.
End Backtracking.

(** The groups of the match of [r] anchored at the start of [s], when [r]
    is (a part of) a compiled pattern with [slots] groups. *)
Definition match_with (slots : nat) (r : regex) (s : string) : option groups :=
  run r s [] (replicate slots None) (fun _ _ g => Some g).

(** The match at the leftmost start position that has one; start positions
    run from 0 to [len(s)] included. *)
Fixpoint search_with (slots : nat) (r : regex) (s : string) : option groups :=
  match match_with slots r s with
  | Some g => Some g
  | None =>
      match s with
      | String _ s' => search_with slots r s'
      | EmptyString => None
      end
  end.

(** [re.match(r, s)] and [re.search(r, s)], as the value of
    [.groups()] on the match object. *)
Definition match_at (r : regex) (s : string) : option groups :=
  match_with (ngroups r) r s.

Definition search (r : regex) (s : string) : option groups :=
  search_with (ngroups r) r s.

End Re.

(** ** Part II. [label_extraction.py]: the nutrient field parser *)

Module LabelExtractor.
Import Re.

(** The table [patterns] of [extract_nutritional_info], in the order the
    dict literal lists its keys. *)
Definition amount_g : regex :=            (* \d+\.?\d*g? *)
  seq [Plus digit; Opt (Lit "."); Star digit; Opt (Lit "g")].
Definition amount_mg_pct : regex :=       (* \d+mg\s*\d*%? *)
  seq [Plus digit; lit "mg"; Star space; Star digit; Opt (Lit "%")].
Definition amount_g_pct : regex :=        (* \d+g\s*\d*% *)
  seq [Plus digit; Lit "g"; Star space; Star digit; Lit "%"].
Definition upto_paren : regex :=          (* [^\n%]+?\) *)
  seq [PlusLazy not_nl_pct; Lit ")"].

Definition servings_per_container : regex :=   (* (\d+)\s*servings\s*per\s*container *)
  seq [Group 0 (Plus digit); Star space; lit "servings"; Star space; lit "per";
       Star space; lit "container"].
Definition servings_colon : regex :=           (* Servings:\s*(\d+) *)
  seq [lit "Servings:"; Star space; Group 1 (Plus digit)].
Definition serving_size_long : regex :=        (* Serving\s*size\s*([^\n%]+?\)) *)
  seq [lit "Serving"; Star space; lit "size"; Star space; Group 0 upto_paren].
Definition serving_size_short : regex :=       (* Serv.\s*size:\s*([^\n%]+?\)) *)
  seq [lit "Serv"; Cset dot; Star space; lit "size:"; Star space; Group 1 upto_paren].
Definition dietary_fiber_long : regex :=       (* Dietary\s*Fiber\s*(\d+g\s*\d*%) *)
  seq [lit "Dietary"; Star space; lit "Fiber"; Star space; Group 0 amount_g_pct].
Definition dietary_fiber_short : regex :=      (* Fiber\s*(\d+g\s*\d*%) *)
  seq [lit "Fiber"; Star space; Group 1 amount_g_pct].

Definition total_fat : regex :=                (* Total\s*Fat\s*(\d+\.?\d*g?) *)
  seq [lit "Total"; Star space; lit "Fat"; Star space; Group 0 amount_g].

Definition patterns : list (string * regex) :=
  [ ("servings_container", Alt servings_per_container servings_colon);
    ("serving_size", Alt serving_size_long serving_size_short);
    ("calories", seq [lit "Calories"; Star space; Group 0 (Plus digit)]);
    ("total_fat", total_fat);
    ("saturated_fat", seq [lit "Saturated"; Star space; lit "Fat"; Star space; Group 0 amount_g]);
    ("trans_fat", seq [lit "Trans"; Star space; lit "Fat"; Star space; Group 0 amount_g]);
    ("cholesterol", seq [lit "Cholesterol"; Star space; Group 0 amount_mg_pct]);
    ("sodium", seq [lit "Sodium"; Star space; Group 0 amount_mg_pct]);
    ("total_carbohydrate",
       seq [lit "Total"; Star space; Alt (lit "Carbohydrate") (lit "Carb.");
            Star space; Group 0 amount_g_pct]);
    ("dietary_fiber", Alt dietary_fiber_long dietary_fiber_short);
    ("total_sugars",
       seq [lit "Total"; Star space; lit "Sugars"; Star space;
            Group 0 (seq [Plus digit; Lit "g"])]);
    ("protein", seq [lit "Protein"; Star space; Group 0 (seq [Plus digit; Lit "g"])]) ].

(** [next((m for m in match.groups() if m), None)]: the first group that is
    neither [None] nor the empty string. *)
Fixpoint first_truthy (g : groups) : option string :=
  match g with
  | [] => None
  | Some EmptyString :: g' | None :: g' => first_truthy g'
  | Some s :: _ => Some s
  end.

(** The body of the loop over [patterns.items()]:
    [match = re.search(pattern, extracted_text)] and then
    [next(...) if match else None]. *)
Definition raw_value (pattern : regex) (extracted_text : string) : option string :=
  match search pattern extracted_text with
  | Some g => first_truthy g
  | None => None
  end.

(** The pattern handed to [str.extract]:
    [(\d+\.?\d*(?:mg|g|mcg)?)\s*(\d+%|\d+% DV)?]. *)
Definition split_pattern : regex :=
  seq [ Group 0 (seq [Plus digit; Opt (Lit "."); Star digit;
                      Opt (Alt (lit "mg") (Alt (Lit "g") (lit "mcg")))]);
        Star space;
        Opt (Group 1 (Alt (seq [Plus digit; Lit "%"]) (seq [Plus digit; lit "% DV"]))) ].

(** [Series.str.extract(pat)] on one cell (pandas): a cell that is not a
    string gives a missing value in every column; otherwise the groups of the
    first match of [pat] in the cell, and a missing value in every column
    when there is no match. *)
Definition str_extract (pat : regex) (cell : option string) : groups :=
  match cell with
  | None => replicate (ngroups pat) None
  | Some s =>
      match search pat s with
      | Some g => g
      | None => replicate (ngroups pat) None
      end
  end.

(** A row of the transposed frame: columns [Nutrient], [Value], [Weight]
    and [DV%]; a missing cell ([None] or [NaN]) is [None]. *)
Record row : Type := Row {
  Nutrient : string;
  Value : option string;
  Weight : option string;
  DV : option string
}.

Definition split_row (entry : string * option string) : row :=
  let cols := str_extract split_pattern (snd entry) in
  {| Nutrient := fst entry;
     Value := snd entry;
     Weight := mjoin (cols !! 0%nat);
     DV := mjoin (cols !! 1%nat) |}.

(** [extract_nutritional_info]: the dict [data] in key order, one row per
    key after the transpose, then the two extracted columns. *)
Definition extract_data (extracted_text : string) : list (string * option string) :=
  map (fun kp => (fst kp, raw_value (snd kp) extracted_text)) patterns.

Definition extract_nutritional_info (extracted_text : string) : list row :=
  map split_row (extract_data extracted_text).

(** The row of a key in the returned frame. *)
Definition row_of (key : string) (df : list row) : option row :=
  find (fun r => String.eqb (Nutrient r) key) df.

End LabelExtractor.

(** ** Part III. [food_classifier.py]: weight estimate, lookup and scaling *)

Module FoodClassifier.

Local Open Scope Q_scope.

(** *** Python values *)

(** [round(x)] to an integer: nearest, ties to the even neighbour. *)
Definition round_half_even (x : Q) : Z :=
  let n := Qnum x in
  let d := Zpos (Qden x) in
  let q := (n / d)%Z in
  match (2 * (n mod d) ?= d)%Z with
  | Lt => q
  | Gt => (q + 1)%Z
  | Eq => if Z.even q then q else (q + 1)%Z
  end.

(** [round(x, 2)]. *)
Definition round2 (x : Q) : Q := Qmake (round_half_even (x * 100)) 100.

(** Truth values of the two kinds of argument: [None], the empty string and
    a zero number are false. *)
Definition truthy_str (s : option string) : bool :=
  match s with
  | Some (String _ _) => true
  | _ => false
  end.

Definition truthy_num (x : option Q) : bool :=
  match x with
  | Some q => negb (Qeq_bool q 0)
  | None => false
  end.

(** [a or b]. *)
Definition py_or {A : Type} (truthy : A -> bool) (a b : A) : A :=
  if truthy a then a else b.

(** *** The object, the log and the outcome of a call *)

(** The fields of a [FoodClassifier] that the two methods read and write
    (the Keras model and the class list play no part in them). *)
Record FoodClassifier : Type := {
  uploaded_image_path : option string;
  class_name : option string;
  max_weight : option Q
}.

(** What [requests] can raise inside the [try] block; all of them are
    [RequestException]s, so the [except] clause catches them
    ([requests.exceptions.JSONDecodeError] is one since requests 2.27). *)
Inductive RequestException : Type :=
| RetryError                  (* retries exhausted on a status of the force list *)
| ConnectionError             (* retries exhausted on connection-level failures *)
| HTTPError (status : Z)      (* [raise_for_status] on a 4xx or 5xx response *)
| JSONDecodeError.            (* [response.json()] on a body that is not JSON *)

(** Exceptions that nothing catches. *)
Inductive exception : Type :=
| KeyError (key : string)
| IndexError
| Cv2Error.   (* [cv2.error], from [cv2.cvtColor] on an image that is [None] *)

(** One constructor per [print] of the two methods, with the values that
    the f-string interpolates. *)
Inductive message : Type :=
| PleaseUpload                        (* "Please upload an image first." *)
| EstimatedWeight (w : Q)             (* f"Estimated Weight: {w:.2f} grams" *)
| ProvideBoth                         (* "Please provide both food name and quantity." *)
| FetchError (e : RequestException)   (* f"Error fetching data from Open Food Facts API: {str(e)}" *)
| NoResults (food_name : string)      (* f"No results found for {food_name}." *)
| NoData (food_name : string).        (* f"No nutritional data available for {food_name}." *)

Section Rendering.
  (** The two renderings that the libraries own: [str(e)] of an exception
      and the ["{:.2f}"] format of a float. *)
Variable str_of_exception : RequestException -> string.
Variable format_2f : Q -> string.

Definition render (m : message) : string :=
    match m with
    | PleaseUpload => "Please upload an image first."
    | EstimatedWeight w => "Estimated Weight: " ++ format_2f w ++ " grams"
    | ProvideBoth => "Please provide both food name and quantity."
    | FetchError e => "Error fetching data from Open Food Facts API: " ++ str_of_exception e
    | NoResults food_name => "No results found for " ++ food_name ++ "."
    | NoData food_name => "No nutritional data available for " ++ food_name ++ "."
    end.
End Rendering.

(** The state a method runs in: the object, what was printed, for every
    HTTP request put on the wire the URL that [session.get] was given (the
    text of the f-string; requests percent-encodes it before sending) and
    every back-off delay (seconds) the retry logic computed, each in order of
    occurrence. *)
Record state : Type := {
  self : FoodClassifier;
  stdout : list message;
  requests : list string;
  sleeps : list Q
}.

Inductive outcome (A : Type) : Type :=
| Returned (a : A)
| Raised (e : exception).
Arguments Returned {A} a.
Arguments Raised {A} e.

Definition M (A : Type) : Type := state -> outcome A * state.

Definition ret {A} (a : A) : M A := fun st => (Returned a, st).
Definition raise {A} (e : exception) : M A := fun st => (Raised e, st).
Definition bind {A B} (m : M A) (f : A -> M B) : M B :=
  fun st =>
    match m st with
    | (Returned a, st') => f a st'
    | (Raised e, st') => (Raised e, st')
    end.

Notation "'do' x <- m ; k" := (bind m (fun x => k))
  (at level 10, x name, m at level 100, k at level 200).

Definition get_self : M FoodClassifier := fun st => (Returned (self st), st).

Definition print (m : message) : M unit := fun st =>
  (Returned tt,
   {| self := self st; stdout := stdout st ++ [m];
      requests := requests st; sleeps := sleeps st |}).

Definition set_max_weight (w : Q) : M unit := fun st =>
  (Returned tt,
   {| self := {| uploaded_image_path := uploaded_image_path (self st);
                 class_name := class_name (self st);
                 max_weight := Some w |};
      stdout := stdout st; requests := requests st; sleeps := sleeps st |}).

(** [sent] requests for [url] went out, with [delays] between them. *)
Definition wire_all (url : string) (sent : nat) (delays : list Q) : M unit := fun st =>
  (Returned tt,
   {| self := self st; stdout := stdout st;
      requests := requests st ++ replicate sent url;
      sleeps := sleeps st ++ delays |}).

(** A fresh object and an empty log. *)
Definition init (o : FoodClassifier) : state :=
  {| self := o; stdout := []; requests := []; sleeps := [] |}.

(** *** [estimate_weight] *)

Section Vision.
  (** What OpenCV contributes: the contours that [cv2.findContours] reports
      (external retrieval, simple approximation) on the image at a path after
      [imread], grey conversion and the inverted binary threshold at 150, and
      [cv2.contourArea]. [cv2.imread] returns [None] for a file that it cannot
      read or decode, and [cv2.cvtColor] then raises [cv2.error]: this is the
      [None] of [find_contours]. *)
Variable contour : Type.
Variable find_contours : string -> option (list contour).
Variable contourArea : contour -> Q.

  (** The body of the [for] loop up to [weight_g]. *)
Definition weight_of (pixel_to_cm_ratio height_cm density : Q) (c : contour) : Q :=
    let area := contourArea c in
    let area_cm2 := area * (pixel_to_cm_ratio ^ 2) in
    let volume_cm3 := area_cm2 * height_cm in
    volume_cm3 * density.

  (** One turn of the loop on the running [max_weight]. *)
Definition keep_heavier (pixel_to_cm_ratio height_cm density : Q)
      (max_weight : Q) (c : contour) : Q :=
    let weight_g := weight_of pixel_to_cm_ratio height_cm density c in
    match weight_g ?= max_weight with
    | Gt => weight_g
    | _ => max_weight
    end.

  (** [max_weight = 0] and the loop over [contours]. *)
Definition heaviest (pixel_to_cm_ratio height_cm density : Q)
      (contours : list contour) : Q :=
    fold_left (keep_heavier pixel_to_cm_ratio height_cm density) contours 0.

Definition estimate_weight (pixel_to_cm_ratio height_cm density : Q) : M unit :=
    do o <- get_self;
    match uploaded_image_path o with
    | None => print PleaseUpload
    | Some path =>
        match find_contours path with
        | None => raise Cv2Error
        | Some contours =>
            let max_weight := heaviest pixel_to_cm_ratio height_cm density contours in
            do _ <- set_max_weight max_weight;
            print (EstimatedWeight max_weight)
        end
    end.
End Vision.

(** The defaults of the keyword arguments of [estimate_weight]. *)
Definition default_pixel_to_cm_ratio : Q := 1 # 10.
Definition default_height_cm : Q := 2.
Definition default_density : Q := 9 # 10.

(** *** The nutrition database and the HTTP session *)

(** The part of the JSON answer that the method reads: [count], [products]
    and, per product, [nutriments] with numeric per-100g fields. A key that
    the object lacks is [None]. The answer is taken to be of this shape: an
    object whose [count] is an integer, whose [products] is a list of objects
    and whose amounts are numbers. On an answer of another shape (a list in
    place of the object, a string in place of an amount) the method raises
    [AttributeError] or [TypeError]; such answers are not among the values
    of this type. *)
Record product : Type := { nutriments : option (gmap string Q) }.
Record api_data : Type := {
  count : option Z;
  products : option (list product)
}.

(** What one request on the wire comes back with: a status and a body
    ([None] when the body is not JSON), or nothing at all (connection
    refused or reset, or the 10 s timeout). A reply is taken as it stands:
    replies that redirect (requests would follow them with further requests
    to another URL) and replies with a [Retry-After] header (urllib3 would
    sleep that long in place of the back-off) are not among them, and the
    properties of the session are about servers that send neither. *)
Inductive reply : Type :=
| Response (status_code : Z) (body : option api_data)
| Dropped.

(** The arguments of [Retry(...)]. *)
Record Retry : Type := {
  total : nat;
  backoff_factor : Q;
  status_forcelist : list Z
}.

Definition retries : Retry :=
  {| total := 5; backoff_factor := 1;
     status_forcelist := [429; 500; 502; 503; 504]%Z |}.

(** urllib3's [Retry.get_backoff_time] after [failures] consecutive failed
    attempts: nothing after the first, then
    [backoff_factor * 2 ** (failures - 1)], at most 120 s. *)
Definition backoff_time (cfg : Retry) (failures : nat) : Q :=
  if (failures <=? 1)%nat then 0
  else Qmin 120 (backoff_factor cfg * 2 ^ Z.of_nat (failures - 1)).

(** The retry loop of urllib3 behind [HTTPAdapter(max_retries=cfg)] for a
    GET: a reply whose status is on the force list, or no reply, uses up one
    retry and the request is sent again after the back-off; when none is left
    the adapter raises. [server n] is the reply to the request number [n] of
    the call (from 0), [budget] the retries left, [delays] the back-off
    delays so far. The result counts the requests sent. *)
Fixpoint urlopen (cfg : Retry) (server : nat -> reply) (budget attempt : nat)
    (delays : list Q) : nat * list Q * (RequestException + Z * option api_data) :=
  match server attempt with
  | Response status body =>
      if decide (status ∈ status_forcelist cfg) then
        match budget with
        | O => (S attempt, delays, inl RetryError)
        | S budget' =>
            urlopen cfg server budget' (S attempt)
              (delays ++ [backoff_time cfg (S attempt)])
        end
      else (S attempt, delays, inr (status, body))
  | Dropped =>
      match budget with
      | O => (S attempt, delays, inl ConnectionError)
      | S budget' =>
          urlopen cfg server budget' (S attempt)
            (delays ++ [backoff_time cfg (S attempt)])
      end
  end.

(** [session.get(url, timeout=10)] on a session whose [https://] adapter
    carries [cfg]. *)
Definition session_get (cfg : Retry) (server : nat -> reply) (url : string)
    : M (RequestException + Z * option api_data) :=
  let '(sent, delays, result) := urlopen cfg server (total cfg) 0 [] in
  do _ <- wire_all url sent delays;
  ret result.

(** The [try] block: [session.get], [raise_for_status], [response.json()]. *)
Definition fetch (server : nat -> reply) (url : string) : M (RequestException + api_data) :=
  do r <- session_get retries server url;
  ret match r with
      | inl e => inl e
      | inr (status, body) =>
          if ((400 <=? status) && (status <? 600))%Z then inl (HTTPError status)
          else match body with
               | Some data => inr data
               | None => inl JSONDecodeError
               end
      end.

(** *** [get_nutritional_facts] *)

Definition search_url (food_name : string) : string :=
  "https://world.openfoodfacts.org/cgi/search.pl?search_terms=" ++ food_name
  ++ "&search_simple=1&action=process&json=1".

(** [nutriments.get(field, 0) * scale_factor], the amount that is rounded. *)
Definition amount (nutriments : gmap string Q) (scale_factor : Q) (field : string) : Q :=
  default (0 : Q) (nutriments !! field) * scale_factor.

(** The dict literal [nutritional_facts], in the order of its keys. *)
Definition nutritional_facts (nutriments : gmap string Q) (quantity_in_grams : Q)
    : list (string * Q) :=
  let scale_factor := quantity_in_grams / 100 in
  [ ("Calories (kcal)", round2 (amount nutriments scale_factor "energy_100g"));
    ("Fat (g)", round2 (amount nutriments scale_factor "fat_100g"));
    ("Protein (g)", round2 (amount nutriments scale_factor "proteins_100g"));
    ("Carbohydrates (g)", round2 (amount nutriments scale_factor "carbohydrates_100g"));
    ("Fiber (g)", round2 (amount nutriments scale_factor "fiber_100g"));
    ("Sugars (g)", round2 (amount nutriments scale_factor "sugars_100g"));
    ("Sodium (mg)", round2 (amount nutriments scale_factor "sodium_100g")) ].

(** [data['products'][0]]. *)
Definition first_product (data : api_data) : M product :=
  match products data with
  | None => raise (KeyError "products")
  | Some [] => raise IndexError
  | Some (p :: _) => ret p
  end.

(** The method after its guard: the request, the two checks on the answer
    and the scaling. *)
Definition lookup_and_scale (server : nat -> reply) (food_name : string) (quantity_in_grams : Q)
    : M (option (list (string * Q))) :=
  do fetched <- fetch server (search_url food_name);
  match fetched with
  | inl e => do _ <- print (FetchError e); ret None
  | inr data =>
      if decide (default 0%Z (count data) = 0%Z) then
        do _ <- print (NoResults food_name); ret None
      else
        do product <- first_product data;
        let nutriments := default ∅ (nutriments product) in
        if decide (size nutriments = 0%nat) then
          do _ <- print (NoData food_name); ret None
        else ret (Some (nutritional_facts nutriments quantity_in_grams))
  end.

(** The two assignments that open the method:
    [food_name = food_name or self.class_name] and
    [quantity_in_grams = quantity_in_grams or self.max_weight]. *)
Definition effective_name (o : FoodClassifier) (food_name : option string) : option string :=
  py_or truthy_str food_name (class_name o).

Definition effective_weight (o : FoodClassifier) (quantity_in_grams : option Q) : option Q :=
  py_or truthy_num quantity_in_grams (max_weight o).

Definition get_nutritional_facts (server : nat -> reply)
    (food_name : option string) (quantity_in_grams : option Q)
    : M (option (list (string * Q))) :=
  do o <- get_self;
  let food_name := effective_name o food_name in
  let quantity_in_grams := effective_weight o quantity_in_grams in
  match food_name, quantity_in_grams with
  | Some food_name, Some quantity_in_grams =>
      lookup_and_scale server food_name quantity_in_grams
  | _, _ => do _ <- print ProvideBoth; ret None
  end.

End FoodClassifier.

(** ** Part IV. Notions used to state the properties *)

Module Reading.
Import Re LabelExtractor.

(** The alternatives of a pattern at its top level, in the order they are
    written. *)
Fixpoint candidates (r : regex) : list regex :=
  match r with
  | Alt r1 r2 => candidates r1 ++ candidates r2
  | _ => [r]
  end.

(** The reading "try the candidates one after the other, each against the
    whole text, and stop at the first one that matches somewhere". *)
Fixpoint raw_by_priority (slots : nat) (cands : list regex) (text : string)
    : option string :=
  match cands with
  | [] => None
  | c :: cands' =>
      match search_with slots c text with
      | Some g => first_truthy g
      | None => raw_by_priority slots cands' text
      end
  end.

(** The first candidate, in the order written, that matches at the start of
    [s]. *)
Fixpoint first_match (slots : nat) (cands : list regex) (s : string) : option groups :=
  match cands with
  | [] => None
  | c :: cands' =>
      match match_with slots c s with
      | Some g => Some g
      | None => first_match slots cands' s
      end
  end.

(** The reading "go through the start positions from the left and, at each,
    through the candidates in the order written". *)
Fixpoint leftmost_first (slots : nat) (cands : list regex) (s : string) : option groups :=
  match first_match slots cands s with
  | Some g => Some g
  | None =>
      match s with
      | String _ s' => leftmost_first slots cands s'
      | EmptyString => None
      end
  end.

(** No match of [r] starts inside the prefix [pre] of [pre ++ rest]. *)
Fixpoint no_match_before (r : regex) (pre rest : string) : bool :=
  match pre with
  | EmptyString => true
  | String _ pre' =>
      match match_at r (pre ++ rest) with
      | Some _ => false
      | None => no_match_before r pre' rest
      end
  end.

(** A line feed. *)
Definition nl : string := String (ascii_of_nat 10) EmptyString.

(** [sub] occurs in [text]. *)
Definition occurs_in (sub text : string) : Prop :=
  exists pre post, text = pre ++ sub ++ post.

(** The pattern that the table gives for a key. *)
Definition pattern_of (key : string) : option regex :=
  snd <$> find (fun kp => String.eqb (fst kp) key) patterns.

End Reading.

Module Scaling.
Import FoodClassifier.
Local Open Scope Q_scope.

(** The keys of [nutritional_facts] with the database field each is read
    from. *)
Definition fields : list (string * string) :=
  [ ("Calories (kcal)", "energy_100g");
    ("Fat (g)", "fat_100g");
    ("Protein (g)", "proteins_100g");
    ("Carbohydrates (g)", "carbohydrates_100g");
    ("Fiber (g)", "fiber_100g");
    ("Sugars (g)", "sugars_100g");
    ("Sodium (mg)", "sodium_100g") ].

(** One field of the scaled record for a portion of [grams]. *)
Definition scaled_field (nutriments : gmap string Q) (grams : Q) (field : string) : Q :=
  round2 (amount nutriments (grams / 100) field).

(** A server that answers the first [failures] requests of a call with
    [status] and every later one with [final]. *)
Definition flaky (failures : nat) (status : Z) (final : reply) : nat -> reply :=
  fun n => if (n <? failures)%nat then Response status None else final.

(** The database answer with one product. *)
Definition one_product (nutriments : option (gmap string Q)) : api_data :=
  {| count := Some 1%Z; products := Some [ {| nutriments := nutriments |} ] |}.

(** The state after [sent] requests for [url] with [delays] between them,
    and the state after printing [m]. *)
Definition logged (st : state) (sent : nat) (url : string) (delays : list Q) : state :=
  {| self := self st; stdout := stdout st;
     requests := requests st ++ replicate sent url;
     sleeps := sleeps st ++ delays |}.

Definition printed (st : state) (m : message) : state :=
  {| self := self st; stdout := stdout st ++ [m];
     requests := requests st; sleeps := sleeps st |}.

End Scaling.

(** The declarative reading of a pattern, against which the backtracking
    matcher is checked. *)
Module Matching.
Import Re Reading.

(** Every character of [l] is in the class [p]. *)
Fixpoint all_in (p : cls) (l : string) : bool :=
  match l with
  | EmptyString => true
  | String a l' => p a && all_in p l'
  end.

(** The characters of [l], latest first, on top of [acc]. *)
Fixpoint pushed (l : string) (acc : list ascii) : list ascii :=
  match l with
  | EmptyString => acc
  | String a l' => pushed l' (a :: acc)
  end.

(** [matches r s acc g s' acc' g']: the pattern [r] can match a prefix of
    [s], leaving [s'], and doing so turns the open-group characters [acc]
    into [acc'] and the closed groups [g] into [g']. This is what a match
    is, without the order in which the matcher tries the possibilities. *)
Fixpoint matches (r : regex) (s : string) (acc : list ascii) (g : groups)
    (s' : string) (acc' : list ascii) (g' : groups) : Prop :=
  match r with
  | Eps => s' = s /\ acc' = acc /\ g' = g
  | Lit c => s = String c s' /\ acc' = c :: acc /\ g' = g
  | Cset p => exists a, p a = true /\ s = String a s' /\ acc' = a :: acc /\ g' = g
  | Seq r1 r2 =>
      exists s1 acc1 g1,
        matches r1 s acc g s1 acc1 g1 /\ matches r2 s1 acc1 g1 s' acc' g'
  | Alt r1 r2 => matches r1 s acc g s' acc' g' \/ matches r2 s acc g s' acc' g'
  | Opt r1 => matches r1 s acc g s' acc' g' \/ (s' = s /\ acc' = acc /\ g' = g)
  | Star p =>
      exists l, all_in p l = true /\ s = l ++ s' /\ acc' = pushed l acc /\ g' = g
  | Plus p | PlusLazy p =>
      exists a l, p a = true /\ all_in p l = true /\ s = String a (l ++ s')
                  /\ acc' = pushed l (a :: acc) /\ g' = g
  | Group i r1 =>
      exists inner g1,
        matches r1 s [] g s' inner g1
        /\ acc' = (inner ++ acc)%list /\ g' = <[i := Some (text_of inner)]> g1
  end.

(** Where the matcher stands in the text [s0], and that every group closed
    so far holds a piece of [s0]. *)
Definition within (s0 s : string) (acc : list ascii) (g : groups) : Prop :=
  (exists pre, s0 = pre ++ text_of acc ++ s)
  /\ (forall i v, g !! i = Some (Some v) -> occurs_in v s0).

(** Some character of [s] is in the class [p]; the first character of [s]
    is in the class [p]. *)
Fixpoint any_in (p : cls) (s : string) : bool :=
  match s with
  | EmptyString => false
  | String a s' => p a || any_in p s'
  end.

Definition first_in (p : cls) (s : string) : bool :=
  match s with
  | EmptyString => false
  | String a _ => p a
  end.

(** Inclusion of character classes, decided on the 256 code points. *)
Definition cls_subset (p q : cls) : bool :=
  forallb (fun n => implb (p (ascii_of_nat n)) (q (ascii_of_nat n))) (List.seq 0 256).

(** Two checks on the syntax of a pattern. [avoids q r]: no match of [r]
    consumes a character of [q]. [leads_with q r]: every match of [r]
    consumes at least one character, and the first one is in [q]. *)
Fixpoint avoids (q : cls) (r : regex) : bool :=
  match r with
  | Eps => true
  | Lit c => negb (q c)
  | Cset p | Star p | Plus p | PlusLazy p => cls_subset p (fun a => negb (q a))
  | Seq r1 r2 | Alt r1 r2 => avoids q r1 && avoids q r2
  | Opt r1 | Group _ r1 => avoids q r1
  end.

Fixpoint leads_with (q : cls) (r : regex) : bool :=
  match r with
  | Lit c => q c
  | Cset p | Plus p | PlusLazy p => cls_subset p q
  | Seq r1 _ => leads_with q r1
  | Alt r1 r2 => leads_with q r1 && leads_with q r2
  | Group _ r1 => leads_with q r1
  | Eps | Opt _ | Star _ => false
  end.

(** [check] holds of the body of every capturing group of the pattern. *)
Fixpoint groups_all (check : regex -> bool) (r : regex) : bool :=
  match r with
  | Group _ r1 => check r1 && groups_all check r1
  | Seq r1 r2 | Alt r1 r2 => groups_all check r1 && groups_all check r2
  | Opt r1 => groups_all check r1
  | _ => true
  end.

(** The percent sign, as a class. *)
Definition pct : cls := fun c => (code c =? 37)%nat.

(** Every closed group holds a text with the property [P]. *)
Definition groups_sat (P : string -> Prop) (g : groups) : Prop :=
  forall i v, g !! i = Some (Some v) -> P v.

(** The keys whose pattern captures no percent sign, and the keys whose
    pattern captures a bare number. *)
Definition plain_keys : list string :=
  [ "servings_container"; "serving_size"; "calories"; "total_fat"; "saturated_fat";
    "trans_fat"; "total_sugars"; "protein" ].

Definition count_keys : list string := [ "servings_container"; "calories" ].

(** Anything but a digit, as a class. *)
Definition not_digit : cls := fun c => negb (digit c).

End Matching.

(** The retry loop in closed form. *)
Module Retrying.
Import FoodClassifier.

(** A reply that the retry logic does not keep: a status of the force list,
    or no reply at all. *)
Definition retryable (cfg : Retry) (r : reply) : bool :=
  match r with
  | Response status _ => bool_decide (status ∈ status_forcelist cfg)
  | Dropped => true
  end.

(** The number of requests, from request [attempt] on, that are sent again:
    the replies that are not kept, as long as retries are left. *)
Fixpoint failures (cfg : Retry) (server : nat -> reply) (budget attempt : nat) : nat :=
  match budget with
  | O => O
  | S budget' =>
      if retryable cfg (server attempt)
      then S (failures cfg server budget' (S attempt))
      else O
  end.

(** What the [try] block makes of the reply that ends the loop. *)
Definition answer (cfg : Retry) (r : reply) : RequestException + api_data :=
  match r with
  | Dropped => inl ConnectionError
  | Response status body =>
      if bool_decide (status ∈ status_forcelist cfg) then inl RetryError
      else if ((400 <=? status) && (status <? 600))%Z then inl (HTTPError status)
      else match body with
           | Some data => inr data
           | None => inl JSONDecodeError
           end
  end.

(** The back-off delays of a call that uses up all five retries. *)
Definition schedule : list Q := [0; 2; 4; 8; 16]%Q.

Definition total_delay (delays : list Q) : Q := fold_right Qplus 0%Q delays.

End Retrying.

(** ** The [LabelExtractor] object: [__init__], [show_table], [process_label] *)

Module LabelExtractorObject.

(** The two attributes of a [LabelExtractor]. *)
Record LabelExtractor : Type := {
  extracted_text : option string;
  df_transposed : option (list LabelExtractor.row)
}.

(** [__init__]. *)
Definition new : LabelExtractor :=
  {| extracted_text := None; df_transposed := None |}.

(** What the methods put on the notebook's output. *)
Inductive shown : Type :=
| Heading                                 (* print("Extracted Nutritional Information:") *)
| Frame (df : list LabelExtractor.row)    (* display(self.df_transposed) *)
| NoDataToDisplay.                        (* print("No data to display. Please run ... first.") *)

(** The method [extract_nutritional_info]: the frame is stored in
    [df_transposed] and returned. *)
Definition extract_nutritional_info (self : LabelExtractor) (text : string)
    : list LabelExtractor.row * LabelExtractor :=
  let df_transposed := LabelExtractor.extract_nutritional_info text in
  (df_transposed,
   {| extracted_text := extracted_text self; df_transposed := Some df_transposed |}).

Definition show_table (self : LabelExtractor) : list shown :=
  match df_transposed self with
  | Some df => [Heading; Frame df]
  | None => [NoDataToDisplay]
  end.

Section Ocr.
  (** Lines 80 to 93: the file is opened and decoded, made grey, thresholded
      and handed to [pytesseract.image_to_string]. The result is the text
      read, or [None] when one of these steps raises (no such file, not an
      image, no OCR engine); nothing is assigned before they are through. *)
Variable image_to_string : string -> option string.

(** [process_label]: [None] when the exception leaves the method, else
    the object and the output after it. *)
Definition process_label (self : LabelExtractor) (image_file_name : string)
    : option (LabelExtractor * list shown) :=
  match image_to_string image_file_name with
  | None => None
  | Some text =>
      let self1 := {| extracted_text := Some text; df_transposed := df_transposed self |} in
      let '(_, self2) := extract_nutritional_info self1 text in
      Some (self2, show_table self2)
  end.

(** A notebook session: one call of [process_label] per file, a call that
    raises leaving the object as it was. *)
Fixpoint process_labels (self : LabelExtractor) (files : list string)
    : LabelExtractor * list shown :=
  match files with
  | [] => (self, [])
  | file :: files' =>
      match process_label self file with
      | None => process_labels self files'
      | Some (self', out) =>
          let '(self'', out') := process_labels self' files' in
          (self'', (out ++ out')%list)
      end
  end.
End Ocr.

End LabelExtractorObject.

(** ** [upload_image] and [predict_image] *)

Module Prediction.
Import FoodClassifier.
Local Open Scope Q_scope.

(** [np.argmax] on a vector: the index of the first occurrence of the
    largest entry; [ValueError] on an empty vector. *)
Fixpoint argmax_from (best : nat) (best_score : Q) (i : nat) (scores : list Q) : nat :=
  match scores with
  | [] => best
  | x :: rest =>
      match (x ?= best_score)%Q with
      | Gt => argmax_from i x (S i) rest
      | _ => argmax_from best best_score (S i) rest
      end
  end.

Definition argmax (scores : list Q) : option nat :=
  match scores with
  | [] => None
  | x :: rest => Some (argmax_from 0 x 1 rest)
  end.

Inductive predict_exception : Type :=
| ImageError            (* line 43 or 44: the file is not an image that Keras reads *)
| ValueError            (* np.argmax of an empty vector *)
| ClassIndexError       (* self.class_names[predicted_class] out of range *)
| DisplayError.         (* lines 48 to 50: load_img or matplotlib raises *)

Inductive predict_message : Type :=
| PleaseUploadFirst                 (* "Please upload an image first." *)
| Uploaded (path : string)          (* f"Uploaded image: {self.uploaded_image_path}" *)
| PredictedClass (name : string).   (* f"Predicted Class: {self.class_name}" *)

(** [upload_image]: [uploaded] are the keys of the dict that
    [files.upload()] returns, in order; [next(iter(uploaded))] raises
    [StopIteration] ([None] here) when there is none. *)
Definition upload_image (uploaded : list string) (o : FoodClassifier)
    : option (FoodClassifier * list predict_message) :=
  match uploaded with
  | [] => None
  | path :: _ =>
      Some ({| uploaded_image_path := Some path;
               class_name := class_name o;
               max_weight := max_weight o |},
            [Uploaded path])
  end.

Section Model.
  (** The class list given to [__init__]; the Keras model together with
      [preprocess_image]: the scores [model.predict(img_array)[0]] of the
      image at a path, or [None] when [load_img] or [model.predict] raises
      (a file that cannot be read as an image, a model of another input
      shape); and whether lines 48 to 50, which load the file again and draw
      it, go through. *)
Variable class_names : list string.
Variable predict : string -> option (list Q).
Variable show_image : string -> bool.

(** [predict_image]: the object and the printed text after the call, and
    the exception that leaves it, if any. The assignment to [class_name]
    comes before the figure is drawn, so an exception of lines 48 to 50
    leaves the new class name in place; the figure itself is neither stored
    nor printed and is left out. *)
Definition predict_image (o : FoodClassifier)
    : FoodClassifier * list predict_message * option predict_exception :=
  match uploaded_image_path o with
  | None => (o, [PleaseUploadFirst], None)
  | Some path =>
      match predict path with
      | None => (o, [], Some ImageError)
      | Some scores =>
          match argmax scores with
          | None => (o, [], Some ValueError)
          | Some predicted_class =>
              match class_names !! predicted_class with
              | None => (o, [], Some ClassIndexError)
              | Some name =>
                  let o' := {| uploaded_image_path := uploaded_image_path o;
                               class_name := Some name;
                               max_weight := max_weight o |} in
                  if show_image path then (o', [PredictedClass name], None)
                  else (o', [], Some DisplayError)
              end
          end
      end
  end.
End Model.

(** [i] is the place of the first largest entry of [l]. *)
Definition first_max (l : list Q) (i : nat) : Prop :=
  exists x, l !! i = Some x
    /\ (forall j y, l !! j = Some y -> (y <= x)%Q)
    /\ (forall j y, (j < i)%nat -> l !! j = Some y -> (y < x)%Q).

End Prediction.

(** ** Part V. Properties of the label parser *)

Module LabelExtractorProps.
Import Re LabelExtractor Reading.

Lemma first_match_app slots (l1 l2 : list regex) s :
  first_match slots (l1 ++ l2) s =
  match first_match slots l1 s with
  | Some g => Some g
  | None => first_match slots l2 s
  end.
Proof.
  induction l1 as [|c l1 IH]; simpl; [reflexivity|].
  destruct (match_with slots c s); [reflexivity | apply IH].
Qed.

(** An anchored match of a pattern is the match of its first candidate that
    matches there. *)
Lemma match_with_candidates slots r s :
  match_with slots r s = first_match slots (candidates r) s.
Proof.
  assert (Hone : forall r', match_with slots r' s = first_match slots [r'] s).
  { intros r'. simpl. destruct (match_with slots r' s); reflexivity. }
  induction r; try apply Hone.
  simpl candidates. rewrite first_match_app, <- IHr1, <- IHr2.
  reflexivity.
Qed.

Lemma search_with_candidates slots r s :
  search_with slots r s = leftmost_first slots (candidates r) s.
Proof.
  induction s as [|a s IH]; simpl; rewrite match_with_candidates.
  - reflexivity.
  - rewrite IH. reflexivity.
Qed.

Lemma first_match_none slots cands s :
  Forall (fun c => match_with slots c s = None) cands ->
  first_match slots cands s = None.
Proof.
  induction 1 as [|c cands Hc _ IH]; simpl; [reflexivity|].
  rewrite Hc. exact IH.
Qed.

Lemma search_with_none_at slots r s :
  search_with slots r s = None -> match_with slots r s = None.
Proof. destruct s; simpl; destruct (match_with slots r _); congruence. Qed.

Lemma search_with_none_tail slots r a s :
  search_with slots r (String a s) = None -> search_with slots r s = None.
Proof. simpl. destruct (match_with slots r (String a s)); congruence. Qed.

Lemma leftmost_first_none slots cands s :
  Forall (fun c => search_with slots c s = None) cands ->
  leftmost_first slots cands s = None.
Proof.
  induction s as [|a s IH]; intros H; simpl.
  - rewrite first_match_none; [reflexivity|].
    eapply Forall_impl; [exact H|]. intros c. apply search_with_none_at.
  - rewrite first_match_none.
    + apply IH. eapply Forall_impl; [exact H|].
      intros c. apply search_with_none_tail.
    + eapply Forall_impl; [exact H|]. intros c. apply search_with_none_at.
Qed.

Lemma candidates_two_or_one r :
  (exists c, candidates r = [c] /\ c = r) \/ (2 <= length (candidates r))%nat.
Proof.
  assert (Hpos : forall r', (1 <= length (candidates r'))%nat).
  { induction r'; simpl; try lia. rewrite length_app. lia. }
  destruct r; try (left; eexists; split; reflexivity).
  right. simpl. rewrite length_app.
  pose proof (Hpos r1). pose proof (Hpos r2). lia.
Qed.

(** C8, as the code has it. The raw value of a key is the first group that
    is neither missing nor empty of the match that [re.search] finds for the
    key's pattern, and that match is found position first, alternative
    second: at the leftmost start position where some top-level alternative
    of the pattern matches, the alternative written first among those that
    match there. When no alternative matches anywhere the raw value is
    absent. For a pattern with a single alternative this is the same as
    trying the alternatives one after the other on the whole text. *)
Theorem raw_value_leftmost_first (pattern : regex) (text : string) :
  raw_value pattern text =
    match leftmost_first (ngroups pattern) (candidates pattern) text with
    | Some g => first_truthy g
    | None => None
    end
  /\ (Forall (fun c => search_with (ngroups pattern) c text = None) (candidates pattern) ->
      raw_value pattern text = None)
  /\ (length (candidates pattern) = 1%nat ->
      raw_value pattern text =
      raw_by_priority (ngroups pattern) (candidates pattern) text).
Proof.
  assert (H1 : raw_value pattern text =
    match leftmost_first (ngroups pattern) (candidates pattern) text with
    | Some g => first_truthy g
    | None => None
    end).
  { unfold raw_value, search. rewrite search_with_candidates. reflexivity. }
  split; [exact H1|split].
  - intros Hnone. rewrite H1, leftmost_first_none; [reflexivity | exact Hnone].
  - intros Hlen. destruct (candidates_two_or_one pattern) as [[c [Hc ->]]|Hge].
    + rewrite Hc. unfold raw_value, search. simpl.
      destruct (search_with (ngroups pattern) pattern text); reflexivity.
    + lia.
Qed.

(** C8, as stated, fails: on this text the second alternative of the
    servings pattern matches at position 0 and wins, although the first
    alternative matches further to the right. *)
Lemma priority_order_counterexample :
  let text := "Servings: 4, 8 servings per container" in
  let pattern := Alt servings_per_container servings_colon in
  pattern_of "servings_container" = Some pattern
  /\ candidates pattern = [servings_per_container; servings_colon]
  /\ raw_by_priority (ngroups pattern) (candidates pattern) text = Some "8"
  /\ raw_value pattern text = Some "4"
  /\ raw_value pattern text <> raw_by_priority (ngroups pattern) (candidates pattern) text.
Proof.
  cbv zeta. repeat split; try (vm_compute; reflexivity).
  vm_compute. discriminate.
Qed.

(** The row of a key is built from the raw value of the key's pattern. *)
Lemma row_of_extract key text :
  row_of key (extract_nutritional_info text) =
  (fun p => split_row (key, raw_value p text)) <$> pattern_of key.
Proof.
  unfold row_of, extract_nutritional_info, extract_data, pattern_of.
  induction patterns as [|[k p] l IH]; simpl; [reflexivity|].
  destruct (String.eqb k key) eqn:E.
  - apply String.eqb_eq in E. subst k. reflexivity.
  - exact IH.
Qed.

Lemma search_with_here slots r s g :
  match_with slots r s = Some g -> search_with slots r s = Some g.
Proof. intros H. destruct s; simpl; rewrite H; reflexivity. Qed.

Lemma search_skips_prefix r pre rest :
  no_match_before r pre rest = true -> search r (pre ++ rest) = search r rest.
Proof.
  unfold search. induction pre as [|a pre IH]; simpl; [reflexivity|].
  unfold match_at.
  change (String a pre ++ rest) with (String a (pre ++ rest)).
  destruct (match_with (ngroups r) r (String a (pre ++ rest)));
    [discriminate | exact IH].
Qed.

Lemma split_row_missing key :
  split_row (key, None) =
  {| Nutrient := key; Value := None; Weight := None; DV := None |}.
Proof. reflexivity. Qed.

Lemma split_row_unsplit key v :
  search split_pattern v = None ->
  split_row (key, Some v) =
  {| Nutrient := key; Value := Some v; Weight := None; DV := None |}.
Proof. intros H. unfold split_row, str_extract. simpl. rewrite H. reflexivity. Qed.

(** C5. Whatever the text, [extract_nutritional_info] returns a frame with
    one row per key of the pattern table, in the table's order. A key whose
    pattern matches nowhere has the raw value, the weight and the percentage
    all missing; a key whose raw value the split pattern does not match
    keeps the raw value and has the weight and the percentage missing. *)
Theorem extract_nutritional_info_total (text : string) :
  map Nutrient (extract_nutritional_info text) = map fst patterns
  /\ Forall2 (fun kp r =>
       Nutrient r = fst kp
       /\ Value r = raw_value (snd kp) text
       /\ (search (snd kp) text = None ->
           Value r = None /\ Weight r = None /\ DV r = None)
       /\ (Value r = None -> Weight r = None /\ DV r = None)
       /\ (forall v, Value r = Some v -> search split_pattern v = None ->
           Value r = Some v /\ Weight r = None /\ DV r = None))
     patterns (extract_nutritional_info text).
Proof.
  unfold extract_nutritional_info, extract_data.
  induction patterns as [|[key p] l [IHk IHr]]; simpl.
  - split; constructor.
  - split; [f_equal; exact IHk|].
    constructor; [|exact IHr].
    change (fst (key, p)) with key. change (snd (key, p)) with p.
    split; [reflexivity|]. split; [reflexivity|].
    split; [|split].
    + intros Hnone. unfold raw_value. rewrite Hnone.
      rewrite split_row_missing. repeat split.
    + change (Value (split_row (key, raw_value p text))) with (raw_value p text).
      intros Hraw. rewrite Hraw, split_row_missing. repeat split.
    + change (Value (split_row (key, raw_value p text))) with (raw_value p text).
      intros v Hraw Hsplit.
      rewrite Hraw, (split_row_unsplit key v Hsplit). repeat split.
Qed.

(** A raw value that the split pattern does not match does occur: the
    serving size of this text has no digit in it. *)
Example raw_kept_when_unsplit :
  row_of "serving_size" (extract_nutritional_info "Serving size one cup (about)") =
  Some {| Nutrient := "serving_size"; Value := Some "one cup (about)";
          Weight := None; DV := None |}.
Proof. vm_compute. reflexivity. Qed.

(** C2, as the code has it. When the text has the line "Total Fat 8g 10%"
    and no match of the total-fat pattern starts to the left of it, the raw
    value and the weight of the total-fat key are both "8g". *)
Theorem total_fat_first_occurrence (pre post : string) :
  no_match_before total_fat pre ("Total Fat 8g 10%" ++ post) = true ->
  exists r,
    row_of "total_fat"
      (extract_nutritional_info (pre ++ "Total Fat 8g 10%" ++ post)) = Some r
    /\ Value r = Some "8g" /\ Weight r = Some "8g".
Proof.
  intros Hpre. rewrite row_of_extract.
  change (pattern_of "total_fat") with (Some total_fat). simpl fmap.
  unfold raw_value. rewrite (search_skips_prefix _ _ _ Hpre).
  assert (Hm : search total_fat ("Total Fat 8g 10%" ++ post) = Some [Some "8g"]).
  { apply search_with_here. vm_compute. reflexivity. }
  rewrite Hm. eexists. split; [reflexivity|].
  split; vm_compute; reflexivity.
Qed.

Lemma total_fat_first_occurrence_witness :
  no_match_before total_fat ("Nutrition Facts" ++ nl)
    ("Total Fat 8g 10%" ++ nl ++ "Sodium 160mg 7%") = true
  /\ exists r,
    row_of "total_fat"
      (extract_nutritional_info
         (("Nutrition Facts" ++ nl) ++ "Total Fat 8g 10%" ++ nl ++ "Sodium 160mg 7%"))
      = Some r
    /\ Value r = Some "8g" /\ Weight r = Some "8g".
Proof.
  split; [vm_compute; reflexivity|].
  apply (total_fat_first_occurrence ("Nutrition Facts" ++ nl) (nl ++ "Sodium 160mg 7%")).
  vm_compute. reflexivity.
Defined.

(** C2, as stated, fails: a text may contain "Total Fat 8g 10%" and have an
    earlier total-fat line, and the earlier line is the one reported. *)
Lemma total_fat_counterexample :
  let text := "Total Fat 5g" ++ nl ++ "Total Fat 8g 10%" in
  occurs_in "Total Fat 8g 10%" text
  /\ row_of "total_fat" (extract_nutritional_info text) =
     Some {| Nutrient := "total_fat"; Value := Some "5g";
             Weight := Some "5g"; DV := None |}
  /\ ~ (exists r, row_of "total_fat" (extract_nutritional_info text) = Some r
                 /\ Weight r = Some "8g" /\ DV r = Some "10%").
Proof.
  cbv zeta. split; [|split].
  - exists ("Total Fat 5g" ++ nl), "". vm_compute. reflexivity.
  - vm_compute. reflexivity.
  - intros [r [Hr [Hw _]]]. vm_compute in Hr. injection Hr as <-.
    simpl in Hw. discriminate.
Qed.

(** On the line alone the weight is found and the percentage is not: the
    group of the total-fat pattern ends after the unit, so the raw value
    never holds a percentage for the split to find. *)
Example total_fat_percentage_not_captured :
  row_of "total_fat" (extract_nutritional_info "Total Fat 8g 10%") =
  Some {| Nutrient := "total_fat"; Value := Some "8g";
          Weight := Some "8g"; DV := None |}.
Proof. vm_compute. reflexivity. Qed.

End LabelExtractorProps.

(** ** Part VI. Properties of the lookup and scaling client *)

Module FoodClassifierProps.
Import FoodClassifier Scaling.
Local Open Scope Q_scope.

(** *** Rounding *)

Lemma round_half_even_spec (x : Q) :
  (2 * Qnum x - Zpos (Qden x) <= 2 * round_half_even x * Zpos (Qden x)
   <= 2 * Qnum x + Zpos (Qden x))%Z.
Proof.
  unfold round_half_even. destruct x as [n d]. simpl.
  pose proof (Z.div_mod n (Zpos d) ltac:(lia)) as Hdm.
  pose proof (Z.mod_pos_bound n (Zpos d) ltac:(lia)) as Hb.
  destruct (Z.compare_spec (2 * (n mod Zpos d)) (Zpos d)) as [He|Hl|Hg];
    [destruct (Z.even (n / Zpos d))| |]; nia.
Qed.

Lemma round_half_even_near (x : Q) :
  x - (1 # 2) <= inject_Z (round_half_even x) <= x + (1 # 2).
Proof.
  pose proof (round_half_even_spec x) as H. destruct x as [n d].
  unfold Qle, Qminus, Qplus, Qopp, inject_Z. simpl in *.
  rewrite ?Pos2Z.inj_mul. split; nia.
Qed.

Lemma round_half_even_exact (x : Q) (k : Z) :
  x == inject_Z k -> round_half_even x = k.
Proof.
  unfold Qeq, inject_Z, round_half_even. destruct x as [n d]. simpl.
  intros H. replace n with (k * Zpos d)%Z by lia.
  rewrite Z.div_mul, Z.mod_mul by lia. reflexivity.
Qed.

Lemma round_half_even_nonneg (x : Q) : 0 <= x -> (0 <= round_half_even x)%Z.
Proof.
  unfold Qle, round_half_even. destruct x as [n d]. simpl. intros H.
  assert (0 <= n / Zpos d)%Z by (apply Z.div_pos; lia).
  destruct (2 * (n mod Zpos d) ?= Zpos d)%Z; [destruct (Z.even _)| |]; lia.
Qed.

Lemma round2_inject (x : Q) : round2 x == inject_Z (round_half_even (x * 100)) / 100.
Proof. unfold round2. rewrite Qmake_Qdiv. reflexivity. Qed.

Lemma round2_near (x : Q) : x - (1 # 200) <= round2 x <= x + (1 # 200).
Proof.
  pose proof (round_half_even_near (x * 100)) as [H1 H2].
  rewrite round2_inject. split.
  - apply Qle_shift_div_l; [reflexivity|]. lra.
  - apply Qle_shift_div_r; [reflexivity|]. lra.
Qed.

Lemma round2_nonneg (x : Q) : 0 <= x -> 0 <= round2 x.
Proof.
  intros H. unfold round2, Qle. simpl.
  assert (0 <= x * 100) by (apply Qmult_le_0_compat; [exact H | discriminate]).
  pose proof (round_half_even_nonneg _ H0). lia.
Qed.

Lemma round2_exact (x : Q) (k : Z) : x == k # 100 -> round2 x = k # 100.
Proof.
  intros H. unfold round2. f_equal. apply round_half_even_exact.
  rewrite H. unfold Qeq, inject_Z. simpl. lia.
Qed.

Lemma round2_idempotent_factor_one (x : Q) : round2 (round2 x * (100 / 100)) = round2 x.
Proof. apply round2_exact. unfold round2. field. Qed.

Lemma round2_double_near (a b : Q) :
  b == 2 * a ->
  2 * round2 a - (1 # 100) <= round2 b <= 2 * round2 a + (1 # 100).
Proof.
  intros Hb.
  pose proof (round_half_even_near (a * 100)) as [A1 A2].
  pose proof (round_half_even_near (b * 100)) as [B1 B2].
  set (ra := round_half_even (a * 100)) in *.
  set (rb := round_half_even (b * 100)) in *.
  assert (Hz : (-1 <= rb - 2 * ra <= 1)%Z).
  { assert (H1 : inject_Z (rb - 2 * ra) <= 3 # 2).
    { unfold Z.sub. rewrite inject_Z_plus, inject_Z_opp, inject_Z_mult.
      change (inject_Z 2) with 2. rewrite Hb in *. lra. }
    assert (H2 : - (3 # 2) <= inject_Z (rb - 2 * ra)).
    { unfold Z.sub. rewrite inject_Z_plus, inject_Z_opp, inject_Z_mult.
      change (inject_Z 2) with 2. rewrite Hb in *. lra. }
    unfold Qle, inject_Z in H1, H2. simpl in H1, H2. lia. }
  unfold round2. fold ra rb. unfold Qle, Qminus, Qplus, Qmult, Qopp. simpl. lia.
Qed.

Lemma round2_double_exact (a b : Q) :
  b == 2 * a -> round2 a == a -> round2 b == 2 * round2 a.
Proof.
  intros Hb Ha.
  assert (Hb' : b == (2 * round_half_even (a * 100)) # 100).
  { rewrite Hb, <- Ha at 1. unfold round2, Qeq. simpl. lia. }
  rewrite (round2_exact _ _ Hb'). unfold round2, Qeq. simpl. lia.
Qed.

(** *** Scaling *)

Lemma nutritional_facts_fields nm w :
  nutritional_facts nm w = map (fun kf => (fst kf, scaled_field nm w (snd kf))) fields.
Proof. reflexivity. Qed.

Lemma amount_double nm w f :
  amount nm (2 * w / 100) f == 2 * amount nm (w / 100) f.
Proof. unfold amount. field. Qed.

(** C3, as the code has it. Before rounding, the amount of every field is
    linear in the portion weight. After rounding to two decimals the field
    for weight [2 * w] is within 0.01 of twice the field for weight [w], and
    equal to it when the amount for [w] needed no rounding. Scaling a record
    that is already scaled by factor 1 (weight 100) changes no field. *)
Theorem scaling_doubles_up_to_rounding (nm : gmap string Q) (w : Q) :
  nutritional_facts nm w
    = map (fun kf => (fst kf, scaled_field nm w (snd kf))) fields
  /\ nutritional_facts nm (2 * w)
    = map (fun kf => (fst kf, scaled_field nm (2 * w) (snd kf))) fields
  /\ (forall f, amount nm (2 * w / 100) f == 2 * amount nm (w / 100) f)
  /\ (forall f, 2 * scaled_field nm w f - (1 # 100) <= scaled_field nm (2 * w) f
              /\ scaled_field nm (2 * w) f <= 2 * scaled_field nm w f + (1 # 100))
  /\ (forall f, scaled_field nm w f == amount nm (w / 100) f ->
              scaled_field nm (2 * w) f == 2 * scaled_field nm w f)
  /\ (forall f, round2 (scaled_field nm w f * (100 / 100)) = scaled_field nm w f).
Proof.
  split; [reflexivity|]. split; [reflexivity|].
  split; [intros f; apply amount_double|].
  split; [|split].
  - intros f. apply round2_double_near, amount_double.
  - intros f Hexact. apply round2_double_exact; [apply amount_double | exact Hexact].
  - intros f. apply round2_idempotent_factor_one.
Qed.

(** C3, as stated, fails: with 1 kcal per 100 g, a portion of 0.4 g gives
    0.00 and a portion of 0.8 g gives 0.01, which is not twice 0.00. *)
Lemma doubling_counterexample :
  let nm : gmap string Q := {[ "energy_100g" := 1 ]} in
  let w : Q := 2 # 5 in
  let server := fun _ : nat => Response 200 (Some (one_product (Some nm))) in
  let o := {| uploaded_image_path := None; class_name := Some "apple";
              max_weight := None |} in
  (exists tl, fst (get_nutritional_facts server None (Some w) (init o))
              = Returned (Some (("Calories (kcal)", 0 # 100) :: tl)))
  /\ (exists tl, fst (get_nutritional_facts server None (Some (2 * w)) (init o))
              = Returned (Some (("Calories (kcal)", 1 # 100) :: tl)))
  /\ ~ (1 # 100 == 2 * (0 # 100)).
Proof.
  cbv zeta. split; [|split].
  - eexists. vm_compute. reflexivity.
  - eexists. vm_compute. reflexivity.
  - intros H. vm_compute in H. discriminate.
Qed.

(** *** What a call does *)

Lemma urlopen_sends cfg server budget attempt delays :
  exists k ds r,
    urlopen cfg server budget attempt delays = (S k, ds, r)
    /\ (attempt <= k <= attempt + budget)%nat.
Proof.
  revert attempt delays.
  induction budget as [|b IH]; intros attempt delays; simpl.
  - destruct (server attempt) as [status body|].
    + destruct (decide (status ∈ status_forcelist cfg));
        do 3 eexists; (split; [reflexivity|lia]).
    + do 3 eexists; (split; [reflexivity|lia]).
  - destruct (server attempt) as [status body|].
    + destruct (decide (status ∈ status_forcelist cfg)).
      * destruct (IH (S attempt) (delays ++ [backoff_time cfg (S attempt)])%list)
          as (k & ds & r & -> & Hk).
        do 3 eexists; (split; [reflexivity|lia]).
      * do 3 eexists; (split; [reflexivity|lia]).
    + destruct (IH (S attempt) (delays ++ [backoff_time cfg (S attempt)])%list)
        as (k & ds & r & -> & Hk).
      do 3 eexists; (split; [reflexivity|lia]).
Qed.

Lemma fetch_returns server url st :
  exists k ds r,
    fetch server url st = (Returned r, logged st (S k) url ds) /\ (k <= 5)%nat.
Proof.
  unfold fetch, session_get, bind, ret, wire_all.
  destruct (urlopen_sends retries server (total retries) 0 []) as (k & ds & r & -> & Hk).
  exists k, ds. eexists. split; [reflexivity|]. simpl in Hk. lia.
Qed.

Lemma get_nutritional_facts_guard server food_name q st :
  get_nutritional_facts server food_name q st =
  match effective_name (self st) food_name, effective_weight (self st) q with
  | Some n, Some w => lookup_and_scale server n w st
  | _, _ => (Returned None, printed st ProvideBoth)
  end.
Proof.
  unfold get_nutritional_facts, bind, get_self.
  destruct (effective_name (self st) food_name), (effective_weight (self st) q);
    reflexivity.
Qed.

Lemma lookup_and_scale_cases server n w st :
  exists st1 k ds fetched,
    fetch server (search_url n) st = (Returned fetched, st1)
    /\ st1 = logged st (S k) (search_url n) ds
    /\ lookup_and_scale server n w st =
       match fetched with
       | inl e => (Returned None, printed st1 (FetchError e))
       | inr data =>
           if decide (default 0%Z (count data) = 0%Z) then
             (Returned None, printed st1 (NoResults n))
           else
             match products data with
             | None => (Raised (KeyError "products"), st1)
             | Some [] => (Raised IndexError, st1)
             | Some (p :: _) =>
                 if decide (size (default ∅ (nutriments p)) = 0%nat) then
                   (Returned None, printed st1 (NoData n))
                 else (Returned (Some (nutritional_facts (default ∅ (nutriments p)) w)), st1)
             end
       end.
Proof.
  destruct (fetch_returns server (search_url n) st) as (k & ds & r & Hf & Hk).
  exists (logged st (S k) (search_url n) ds), k, ds, r.
  split; [exact Hf|]. split; [reflexivity|].
  unfold lookup_and_scale, bind. rewrite Hf.
  destruct r as [e|data]; [reflexivity|].
  destruct (decide (default 0%Z (count data) = 0%Z)); [reflexivity|].
  unfold first_product. destruct (products data) as [[|p ps]|]; try reflexivity.
  unfold ret. destruct (decide (size (default ∅ (nutriments p)) = 0%nat)); reflexivity.
Qed.

(** *** The guard of [get_nutritional_facts] *)

(** C1, as the code has it. When, after the fallback to the stored class
    name and the stored weight, the food name or the weight is still [None],
    the method prints the usage message and returns [None]: nothing is put
    on the wire and no record is built. (A weight that is zero and not
    [None] after the fallback is not such a case.) *)
Theorem precondition_error (server : nat -> reply) (food_name : option string)
    (q : option Q) (st : state) :
  effective_name (self st) food_name = None
  \/ effective_weight (self st) q = None ->
  get_nutritional_facts server food_name q st =
    (Returned None,
     {| self := self st; stdout := stdout st ++ [ProvideBoth];
        requests := requests st; sleeps := sleeps st |}).
Proof.
  intros H. rewrite get_nutritional_facts_guard.
  destruct H as [-> | ->]; [reflexivity|].
  destruct (effective_name (self st) food_name); reflexivity.
Qed.

Lemma precondition_error_witness :
  let o := {| uploaded_image_path := None; class_name := None; max_weight := None |} in
  (effective_name o (Some "") = None \/ effective_weight o (Some 50) = None)
  /\ get_nutritional_facts (fun _ => Dropped) (Some "") (Some 50) (init o) =
     (Returned None,
      {| self := o; stdout := [ProvideBoth]; requests := []; sleeps := [] |}).
Proof.
  cbv zeta. split; [left; reflexivity|].
  apply (precondition_error (fun _ => Dropped) (Some "") (Some 50)
           (init {| uploaded_image_path := None; class_name := None; max_weight := None |})).
  left. reflexivity.
Defined.

(** C1, as stated, fails: with a stored weight of 0 and a passed weight of
    0 the weight is zero, yet the lookup goes out and a record comes back. *)
Lemma zero_weight_counterexample :
  let o := {| uploaded_image_path := None; class_name := None; max_weight := Some 0 |} in
  let nm : gmap string Q := {[ "energy_100g" := 52 ]} in
  let server := fun _ : nat => Response 200 (Some (one_product (Some nm))) in
  get_nutritional_facts server (Some "apple") (Some 0) (init o) =
    (Returned (Some [ ("Calories (kcal)", 0 # 100); ("Fat (g)", 0 # 100);
                      ("Protein (g)", 0 # 100); ("Carbohydrates (g)", 0 # 100);
                      ("Fiber (g)", 0 # 100); ("Sugars (g)", 0 # 100);
                      ("Sodium (mg)", 0 # 100) ]),
     {| self := o; stdout := []; requests := [search_url "apple"]; sleeps := [] |}).
Proof. vm_compute. reflexivity. Qed.

Lemma truthy_num_zero z : z == 0 -> truthy_num (Some z) = false.
Proof.
  intros H. unfold truthy_num. apply Qeq_bool_iff in H. rewrite H. reflexivity.
Qed.

Lemma lookup_sends server n w st :
  exists k, requests (snd (lookup_and_scale server n w st))
            = (requests st ++ replicate (S k) (search_url n))%list.
Proof.
  destruct (lookup_and_scale_cases server n w st) as (st1 & k & ds & fetched & _ & -> & ->).
  exists k. destruct fetched as [e|data]; [reflexivity|].
  destruct (decide _); [reflexivity|].
  destruct (products data) as [[|p ps]|]; try reflexivity.
  destruct (decide _); reflexivity.
Qed.

Lemma amount_zero nm w f : w == 0 -> amount nm (w / 100) f == 0.
Proof. intros H. unfold amount. rewrite H. field. Qed.

Lemma round2_zero x : x == 0 -> round2 x = 0 # 100.
Proof. intros H. apply round2_exact. rewrite H. reflexivity. Qed.

(** C10. An empty food name and a zero weight are false in Python, so
    [or] replaces them with the stored class name and the stored weight, and
    the call is the same as one that passes nothing. With a food name
    present, a passed weight of 0 gives the usage message exactly when the
    stored weight is [None]; otherwise the lookup goes out with the stored
    weight, and a stored weight of 0 yields a record of zeros. *)
Theorem falsy_arguments_fall_back (server : nat -> reply) (st : state) :
  effective_name (self st) (Some "") = class_name (self st)
  /\ (forall z, z == 0 -> effective_weight (self st) (Some z) = max_weight (self st))
  /\ (forall q, get_nutritional_facts server (Some "") q st
              = get_nutritional_facts server None q st)
  /\ (forall name z, z == 0 ->
        get_nutritional_facts server name (Some z) st
        = get_nutritional_facts server name None st)
  /\ (forall name z n, z == 0 -> effective_name (self st) name = Some n ->
        (max_weight (self st) = None ->
           get_nutritional_facts server name (Some z) st
           = (Returned None, printed st ProvideBoth))
        /\ (forall w, max_weight (self st) = Some w ->
              get_nutritional_facts server name (Some z) st
              = lookup_and_scale server n w st
              /\ exists k,
                   requests (snd (get_nutritional_facts server name (Some z) st))
                   = (requests st ++ replicate (S k) (search_url n))%list))
  /\ (forall nm w, w == 0 ->
        nutritional_facts nm w = map (fun kf => (fst kf, 0 # 100)) fields).
Proof.
  split; [reflexivity|].
  assert (Hw : forall z, z == 0 ->
            effective_weight (self st) (Some z) = max_weight (self st)).
  { intros z Hz. unfold effective_weight, py_or. rewrite (truthy_num_zero z Hz).
    reflexivity. }
  split; [exact Hw|]. split; [|split; [|split]].
  - intros q. rewrite !get_nutritional_facts_guard. reflexivity.
  - intros name z Hz. rewrite !get_nutritional_facts_guard, (Hw z Hz). reflexivity.
  - intros name z n Hz Hn. split.
    + intros Hnone. rewrite get_nutritional_facts_guard, Hn, (Hw z Hz), Hnone.
      reflexivity.
    + intros w Hsome.
      assert (Heq : get_nutritional_facts server name (Some z) st
                    = lookup_and_scale server n w st).
      { rewrite get_nutritional_facts_guard, Hn, (Hw z Hz), Hsome. reflexivity. }
      split; [exact Heq|]. rewrite Heq. apply lookup_sends.
  - intros nm w Hz. rewrite nutritional_facts_fields. unfold scaled_field.
    apply map_ext. intros kf. f_equal. apply round2_zero, amount_zero, Hz.
Qed.

(** *** Outcomes of the lookup *)

Lemma lookup_after_fetch server n w st data st1 :
  fetch server (search_url n) st = (Returned (inr data), st1) ->
  lookup_and_scale server n w st =
    if decide (default 0%Z (count data) = 0%Z) then
      (Returned None, printed st1 (NoResults n))
    else
      match products data with
      | None => (Raised (KeyError "products"), st1)
      | Some [] => (Raised IndexError, st1)
      | Some (p :: _) =>
          if decide (size (default ∅ (nutriments p)) = 0%nat) then
            (Returned None, printed st1 (NoData n))
          else (Returned (Some (nutritional_facts (default ∅ (nutriments p)) w)), st1)
      end.
Proof.
  intros Hf.
  destruct (lookup_and_scale_cases server n w st) as (st1' & k & ds & fetched & Hf' & _ & ->).
  rewrite Hf in Hf'. injection Hf' as <- <-. reflexivity.
Qed.

(** C7. When the database answers with [count = 0] (or without a count)
    the method prints the no-results message and returns [None]; when the
    first product has no [nutriments], or an empty one, it prints the
    no-data message and returns [None]. No record is built in either case.
    The two printed texts differ from each other and from the usage message,
    whatever the food name; the returned value is [None] in all three. *)
Theorem not_found_and_no_data (server : nat -> reply) (food_name : option string)
    (q : option Q) (st st1 : state) (n : string) (w : Q) (data : api_data) :
  effective_name (self st) food_name = Some n ->
  effective_weight (self st) q = Some w ->
  fetch server (search_url n) st = (Returned (inr data), st1) ->
  (default 0%Z (count data) = 0%Z ->
     get_nutritional_facts server food_name q st
     = (Returned None, printed st1 (NoResults n)))
  /\ (forall p ps,
        default 0%Z (count data) <> 0%Z ->
        products data = Some (p :: ps) ->
        nutriments p = None \/ nutriments p = Some ∅ ->
        get_nutritional_facts server food_name q st
        = (Returned None, printed st1 (NoData n)))
  /\ (forall str_of fmt a b,
        render str_of fmt (NoResults a) <> render str_of fmt (NoData b)
        /\ render str_of fmt (NoResults a) <> render str_of fmt ProvideBoth
        /\ render str_of fmt (NoData b) <> render str_of fmt ProvideBoth).
Proof.
  intros Hn Hw Hf.
  assert (Hg : get_nutritional_facts server food_name q st
               = lookup_and_scale server n w st).
  { rewrite get_nutritional_facts_guard, Hn, Hw. reflexivity. }
  rewrite Hg, (lookup_after_fetch _ _ _ _ _ _ Hf).
  split; [|split].
  - intros Hc. destruct (decide _); [reflexivity|contradiction].
  - intros p ps Hc Hp Hnm. destruct (decide _); [contradiction|].
    rewrite Hp.
    assert (He : size (default (∅ : gmap string Q) (nutriments p)) = 0%nat).
    { destruct Hnm as [-> | ->]; reflexivity. }
    destruct (decide _); [reflexivity|contradiction].
  - intros str_of fmt a b. simpl. repeat split; discriminate.
Qed.

Lemma not_found_and_no_data_witness :
  let o := {| uploaded_image_path := None; class_name := Some "dragonfruit";
              max_weight := Some 120 |} in
  let data := {| count := Some 0%Z; products := Some [] |} in
  let server := fun _ : nat => Response 200 (Some data) in
  get_nutritional_facts server None None (init o)
  = (Returned None,
     {| self := o; stdout := [NoResults "dragonfruit"];
        requests := [search_url "dragonfruit"]; sleeps := [] |}).
Proof.
  cbv zeta.
  refine (proj1 (not_found_and_no_data
           (fun _ => Response 200 (Some {| count := Some 0%Z; products := Some [] |}))
           None None
           (init {| uploaded_image_path := None; class_name := Some "dragonfruit";
                    max_weight := Some 120 |})
           {| self := {| uploaded_image_path := None; class_name := Some "dragonfruit";
                         max_weight := Some 120 |};
              stdout := []; requests := [search_url "dragonfruit"]; sleeps := [] |}
           "dragonfruit" 120
           {| count := Some 0%Z; products := Some [] |} _ _ _) _);
    reflexivity.
Defined.

(** *** The scaled record *)

Lemma amount_absent nm sf f : nm !! f = None -> amount nm sf f == 0.
Proof. intros H. unfold amount. rewrite H. simpl. ring. Qed.

Lemma amount_nonneg nm sf f :
  0 <= sf -> map_Forall (fun _ v => 0 <= v) nm -> 0 <= amount nm sf f.
Proof.
  intros Hsf Hnm. unfold amount.
  apply Qmult_le_0_compat; [|exact Hsf].
  destruct (nm !! f) as [v|] eqn:E; simpl; [exact (Hnm _ _ E)|discriminate].
Qed.

Lemma get_nutritional_facts_returns_from server food_name q st rec st' :
  get_nutritional_facts server food_name q st = (Returned (Some rec), st') ->
  exists n w data p ps,
    effective_name (self st) food_name = Some n
    /\ effective_weight (self st) q = Some w
    /\ fetch server (search_url n) st = (Returned (inr data), st')
    /\ products data = Some (p :: ps)
    /\ rec = nutritional_facts (default ∅ (nutriments p)) w.
Proof.
  rewrite get_nutritional_facts_guard.
  destruct (effective_name (self st) food_name) as [n|]; [|discriminate].
  destruct (effective_weight (self st) q) as [w|]; [|discriminate].
  destruct (lookup_and_scale_cases server n w st) as (st1 & k & ds & fetched & Hf & _ & ->).
  destruct fetched as [e|data]; [discriminate|].
  destruct (decide _); [discriminate|].
  destruct (products data) as [[|p ps]|] eqn:Hp; try discriminate.
  destruct (decide _); [discriminate|].
  intros H. injection H as <- <-. exists n, w, data, p, ps. auto 10.
Qed.

(** C6, as the code has it. Every record that [get_nutritional_facts]
    returns is built from the answer of the database to the request for the
    food name in force: from the [nutriments] of its first product. It has
    exactly the seven keys, in order; each value is the rounded product of
    the amount in that [nutriments], or 0 when it has none, with the scale
    factor, so a nutrient that the database lacks is reported as 0.00; and
    every value is at least 0 provided the portion weight is at least 0 and
    no amount in that [nutriments] is negative. *)
Theorem scaled_record_shape (server : nat -> reply) (food_name : option string)
    (q : option Q) (st st' : state) (rec : list (string * Q)) :
  get_nutritional_facts server food_name q st = (Returned (Some rec), st') ->
  exists (n : string) (w : Q) (data : api_data) (p : product) (ps : list product),
    effective_name (self st) food_name = Some n
    /\ effective_weight (self st) q = Some w
    /\ fetch server (search_url n) st = (Returned (inr data), st')
    /\ products data = Some (p :: ps)
    /\ rec = map (fun kf => (fst kf,
               round2 (default 0 (default ∅ (nutriments p) !! snd kf) * (w / 100))))
             fields
    /\ map fst rec = map fst fields
    /\ (forall kf, kf ∈ fields -> default ∅ (nutriments p) !! snd kf = None ->
          (kf.1, 0 # 100) ∈ rec)
    /\ (0 <= w -> map_Forall (fun _ v => 0 <= v) (default ∅ (nutriments p)) ->
          Forall (fun kv => 0 <= snd kv) rec).
Proof.
  intros H.
  destruct (get_nutritional_facts_returns_from _ _ _ _ _ _ H)
    as (n & w & data & p & ps & Hn & Hw & Hf & Hp & ->).
  exists n, w, data, p, ps.
  split; [exact Hn|]. split; [exact Hw|]. split; [exact Hf|]. split; [exact Hp|].
  split; [reflexivity|]. split; [reflexivity|].
  split.
  - intros kf Hin Habs. rewrite nutritional_facts_fields.
    apply list_elem_of_fmap. exists kf. split; [|exact Hin].
    f_equal. unfold scaled_field. symmetry.
    apply round2_zero, amount_absent, Habs.
  - intros Hw0 Hnm. rewrite nutritional_facts_fields.
    apply Forall_fmap, Forall_forall. intros kf _. simpl.
    apply round2_nonneg, amount_nonneg; [|exact Hnm].
    apply Qle_shift_div_l; [reflexivity|]. lra.
Qed.

Lemma scaled_record_shape_witness :
  let nm : gmap string Q := {[ "energy_100g" := 52 ]} in
  let server := fun _ : nat => Response 200 (Some (one_product (Some nm))) in
  let o := {| uploaded_image_path := None; class_name := None; max_weight := None |} in
  let rec := [ ("Calories (kcal)", 7800 # 100); ("Fat (g)", 0 # 100);
               ("Protein (g)", 0 # 100); ("Carbohydrates (g)", 0 # 100);
               ("Fiber (g)", 0 # 100); ("Sugars (g)", 0 # 100);
               ("Sodium (mg)", 0 # 100) ] in
  let st' := {| self := o; stdout := []; requests := [search_url "apple"];
                sleeps := [] |} in
  get_nutritional_facts server (Some "apple") (Some 150) (init o)
    = (Returned (Some rec), st')
  /\ exists (n : string) (w : Q) (data : api_data) (p : product) (ps : list product),
    effective_name (self (init o)) (Some "apple") = Some n
    /\ effective_weight (self (init o)) (Some 150) = Some w
    /\ fetch server (search_url n) (init o) = (Returned (inr data), st')
    /\ products data = Some (p :: ps)
    /\ rec = map (fun kf => (fst kf,
               round2 (default 0 (default ∅ (nutriments p) !! snd kf) * (w / 100))))
             fields
    /\ map fst rec = map fst fields
    /\ (forall kf, kf ∈ fields -> default ∅ (nutriments p) !! snd kf = None ->
          (kf.1, 0 # 100) ∈ rec)
    /\ (0 <= w -> map_Forall (fun _ v => 0 <= v) (default ∅ (nutriments p)) ->
          Forall (fun kv => 0 <= snd kv) rec).
Proof.
  cbv zeta. split; [vm_compute; reflexivity|].
  eapply (scaled_record_shape
            (fun _ => Response 200 (Some (one_product (Some {[ "energy_100g" := 52 ]}))))
            (Some "apple") (Some 150)).
  vm_compute. reflexivity.
Defined.

(** C6, as stated, fails: nothing stops a negative portion weight, and the
    record then has a negative value. *)
Lemma scaled_record_counterexample :
  let nm : gmap string Q := {[ "energy_100g" := 52 ]} in
  let server := fun _ : nat => Response 200 (Some (one_product (Some nm))) in
  let o := {| uploaded_image_path := None; class_name := None; max_weight := None |} in
  fst (get_nutritional_facts server (Some "apple") (Some (-50 # 1)) (init o))
  = Returned (Some [ ("Calories (kcal)", -2600 # 100); ("Fat (g)", 0 # 100);
                     ("Protein (g)", 0 # 100); ("Carbohydrates (g)", 0 # 100);
                     ("Fiber (g)", 0 # 100); ("Sugars (g)", 0 # 100);
                     ("Sodium (mg)", 0 # 100) ])
  /\ ~ (0 <= -2600 # 100).
Proof.
  cbv zeta. split; [vm_compute; reflexivity|].
  intros H. vm_compute in H. apply H. reflexivity.
Qed.

(** *** Retries *)

Lemma fetch_flaky_5 data url st :
  fetch (flaky 5 503 (Response 200 (Some data))) url st
  = (Returned (inr data), logged st 6 url [0; 2; 4; 8; 16]).
Proof. reflexivity. Qed.

Lemma fetch_flaky_6 final url st :
  fetch (flaky 6 503 final) url st
  = (Returned (inl RetryError), logged st 6 url [0; 2; 4; 8; 16]).
Proof. reflexivity. Qed.

Lemma urlopen_pass cfg server budget attempt delays status body :
  server attempt = Response status body ->
  status ∉ status_forcelist cfg ->
  urlopen cfg server budget attempt delays = (S attempt, delays, inr (status, body)).
Proof.
  intros Hs Hnot. destruct budget; simpl; rewrite Hs;
    (destruct (decide _); [contradiction|reflexivity]).
Qed.

(** C9. The session retries a GET on the statuses 429, 500, 502, 503 and
    504 and on no other status, at most 5 times, so a call puts at most 6
    requests on the wire; the back-off between retries doubles from the
    second retry on. After five 503 answers and then a 200 the call uses the
    body of the sixth answer and ends as a call answered at once would; after
    six 503 answers the adapter raises [RetryError], which the method
    catches: it prints the fetch error and returns [None]. *)
Theorem retry_budget (st : state) (url : string) :
  (forall data,
     fetch (flaky 5 503 (Response 200 (Some data))) url st
     = (Returned (inr data), logged st 6 url [0; 2; 4; 8; 16]))
  /\ (forall data food_name q,
        fst (get_nutritional_facts (flaky 5 503 (Response 200 (Some data))) food_name q st)
        = fst (get_nutritional_facts (fun _ => Response 200 (Some data)) food_name q st))
  /\ (forall final,
        fetch (flaky 6 503 final) url st
        = (Returned (inl RetryError), logged st 6 url [0; 2; 4; 8; 16]))
  /\ (forall final food_name q n w,
        effective_name (self st) food_name = Some n ->
        effective_weight (self st) q = Some w ->
        get_nutritional_facts (flaky 6 503 final) food_name q st
        = (Returned None,
           printed (logged st 6 (search_url n) [0; 2; 4; 8; 16]) (FetchError RetryError)))
  /\ total retries = 5%nat
  /\ status_forcelist retries = [429; 500; 502; 503; 504]%Z
  /\ (forall server status body,
        server 0%nat = Response status body ->
        status ∉ status_forcelist retries ->
        exists r, fetch server url st = (Returned r, logged st 1 url []))
  /\ (forall server, exists k ds r,
        fetch server url st = (Returned r, logged st (S k) url ds) /\ (k <= 5)%nat)
  /\ (forall failures, (2 <= failures <= 5)%nat ->
        backoff_time retries (S failures) == 2 * backoff_time retries failures).
Proof.
  split; [intros; apply fetch_flaky_5|].
  split.
  { intros data food_name q. rewrite !get_nutritional_facts_guard.
    destruct (effective_name _ _) as [n|]; [|reflexivity].
    destruct (effective_weight _ _) as [w|]; [|reflexivity].
    rewrite (lookup_after_fetch _ n w st data _ (fetch_flaky_5 data _ st)).
    rewrite (lookup_after_fetch (fun _ => Response 200 (Some data)) n w st data
               (logged st 1 (search_url n) []) eq_refl).
    destruct (decide _); [reflexivity|].
    destruct (products data) as [[|p ps]|]; try reflexivity.
    destruct (decide _); reflexivity. }
  split; [intros; apply fetch_flaky_6|].
  split.
  { intros final food_name q n w Hn Hw.
    rewrite get_nutritional_facts_guard, Hn, Hw.
    unfold lookup_and_scale, bind. rewrite fetch_flaky_6. reflexivity. }
  split; [reflexivity|]. split; [reflexivity|].
  split.
  { intros server status body Hs Hnot.
    unfold fetch, session_get, bind, ret, wire_all.
    rewrite (urlopen_pass _ _ _ _ _ _ _ Hs Hnot). eexists. reflexivity. }
  split; [intros server; apply fetch_returns|].
  intros failures Hf.
  assert (Hc : failures = 2%nat \/ failures = 3%nat \/ failures = 4%nat
               \/ failures = 5%nat) by lia.
  destruct Hc as [-> | [-> | [-> | ->]]]; vm_compute; reflexivity.
Qed.

(** *** The weight estimate *)

Section EstimatorProps.
Variable contour : Type.
Variable find_contours : string -> option (list contour).
Variable contourArea : contour -> Q.
Variables pixel_to_cm_ratio height_cm density : Q.

Local Abbreviation weight := (weight_of contour contourArea pixel_to_cm_ratio height_cm density).
Local Abbreviation keep := (keep_heavier contour contourArea pixel_to_cm_ratio height_cm density).

Lemma keep_heavier_cases m c :
    (keep m c = m /\ weight c <= m) \/ (keep m c = weight c /\ m < weight c).
  Proof.
    unfold keep_heavier.
    destruct (weight c ?= m) eqn:E.
    - left. split; [reflexivity|]. apply Qeq_alt in E. rewrite E. apply Qle_refl.
    - left. split; [reflexivity|]. apply Qlt_alt in E. apply Qlt_le_weak, E.
    - right. split; [reflexivity|]. apply Qgt_alt in E. exact E.
  Qed.

Lemma fold_keep_heavier contours m0 :
    let m := fold_left keep contours m0 in
    m0 <= m
    /\ Forall (fun c => weight c <= m) contours
    /\ (m = m0 \/ exists c, c ∈ contours /\ m = weight c).
  Proof.
    revert m0. induction contours as [|c l IH]; intros m0; simpl.
    - split; [apply Qle_refl|]. split; [constructor|]. left. reflexivity.
    - destruct (IH (keep m0 c)) as (Hle & Hall & Hor).
      destruct (keep_heavier_cases m0 c) as [[Hk Hw]|[Hk Hw]]; rewrite Hk in *.
      + split; [exact Hle|]. split.
        * constructor; [|exact Hall]. eapply Qle_trans; [exact Hw|exact Hle].
        * destruct Hor as [Hm|(c' & Hin & Hm)]; [left; exact Hm|].
          right. exists c'. split; [right; exact Hin|exact Hm].
      + split; [eapply Qle_trans; [apply Qlt_le_weak, Hw|exact Hle]|]. split.
        * constructor; [exact Hle|exact Hall].
        * right. destruct Hor as [Hm|(c' & Hin & Hm)].
          -- exists c. split; [left|exact Hm].
          -- exists c'. split; [right; exact Hin|exact Hm].
  Qed.

Lemma weight_nonneg c :
    0 <= contourArea c -> 0 <= height_cm -> 0 <= density -> 0 <= weight c.
  Proof.
    intros Ha Hh Hd. unfold weight_of.
    apply Qmult_le_0_compat; [|exact Hd].
    apply Qmult_le_0_compat; [|exact Hh].
    apply Qmult_le_0_compat; [exact Ha|apply Qsqr_nonneg].
  Qed.

(** C4, as the code has it. With no contour the estimate is 0. With a
    height and a density that are not negative (contour areas never are),
    the estimate is the largest of the contour weights
    [area * ratio^2 * height_cm * density]: no contour weighs more and some
    contour weighs exactly that; with a single contour it is that contour's
    weight. [estimate_weight] stores this value in [max_weight] and prints
    it when OpenCV can read the uploaded file; when it cannot, the method
    raises [cv2.error] and neither stores nor prints anything. *)
Theorem estimate_weight_is_max (contours : list contour) :
    (forall c, 0 <= contourArea c) -> 0 <= height_cm -> 0 <= density ->
    let grams := fun c => contourArea c * pixel_to_cm_ratio ^ 2 * height_cm * density in
    let estimate := heaviest contour contourArea pixel_to_cm_ratio height_cm density in
    estimate [] = 0
    /\ Forall (fun c => grams c <= estimate contours) contours
    /\ (contours <> [] -> exists c, c ∈ contours /\ estimate contours == grams c)
    /\ (forall c, estimate [c] == grams c)
    /\ (forall st path,
          uploaded_image_path (self st) = Some path ->
          find_contours path = Some contours ->
          estimate_weight contour find_contours contourArea
            pixel_to_cm_ratio height_cm density st
          = (Returned tt,
             {| self := {| uploaded_image_path := uploaded_image_path (self st);
                           class_name := class_name (self st);
                           max_weight := Some (estimate contours) |};
                stdout := stdout st ++ [EstimatedWeight (estimate contours)];
                requests := requests st; sleeps := sleeps st |}))
    /\ (forall st path,
          uploaded_image_path (self st) = Some path ->
          find_contours path = None ->
          estimate_weight contour find_contours contourArea
            pixel_to_cm_ratio height_cm density st
          = (Raised Cv2Error, st)).
  Proof.
    intros Harea Hh Hd grams estimate.
    assert (Hgrams : forall c, grams c = weight c) by reflexivity.
    assert (Hmax : forall l, l <> [] ->
              exists c, c ∈ l /\ estimate l == grams c).
    { intros l Hne. unfold estimate, heaviest.
      destruct (fold_keep_heavier l 0) as (H0 & Hall & [Hm|(c & Hin & Hm)]).
      - destruct l as [|c l']; [contradiction|]. exists c. split; [left|].
        rewrite Hm, Hgrams. apply Qle_antisym.
        + apply weight_nonneg; auto.
        + rewrite <- Hm. apply (Forall_inv Hall).
      - exists c. split; [exact Hin|]. rewrite Hm. reflexivity. }
    split; [reflexivity|]. split; [|split; [|split; [|split]]].
    - apply (fold_keep_heavier contours 0).
    - exact (Hmax contours).
    - intros c. destruct (Hmax [c] ltac:(discriminate)) as (c' & Hin & Hc').
      apply list_elem_of_singleton in Hin. subst c'. exact Hc'.
    - intros st path Hp Hc. unfold estimate_weight, bind, get_self.
      destruct (uploaded_image_path (self st)) as [path'|] eqn:E; [|discriminate].
      injection Hp as ->. rewrite Hc. unfold set_max_weight, print. simpl. rewrite E.
      reflexivity.
    - intros st path Hp Hc. unfold estimate_weight, bind, get_self, raise.
      rewrite Hp, Hc. reflexivity.
  Qed.
End EstimatorProps.

Lemma estimate_weight_is_max_witness :
  let area := fun n : nat => inject_Z (Z.of_nat n) in
  (forall c, 0 <= area c) /\ 0 <= 2 /\ 0 <= (9 # 10)
  /\ heaviest nat area (1 # 10) 2 (9 # 10) [2500%nat]
     == area 2500%nat * (1 # 10) ^ 2 * 2 * (9 # 10)
  /\ Forall (fun c => area c * (1 # 10) ^ 2 * 2 * (9 # 10)
                      <= heaviest nat area (1 # 10) 2 (9 # 10) [400%nat; 2500%nat; 900%nat])
            [400%nat; 2500%nat; 900%nat].
Proof.
  cbv zeta.
  assert (Ha : forall c : nat, 0 <= inject_Z (Z.of_nat c)).
  { intros c. unfold Qle. simpl. lia. }
  split; [exact Ha|]. split; [discriminate|]. split; [discriminate|].
  destruct (estimate_weight_is_max nat (fun _ => None) (fun n => inject_Z (Z.of_nat n))
              (1 # 10) 2 (9 # 10) [400%nat; 2500%nat; 900%nat] Ha
              ltac:(discriminate) ltac:(discriminate))
    as (_ & Hall & _ & Hone & _).
  split; [exact (Hone 2500%nat)|exact Hall].
Defined.

(** C4, as stated, fails: nothing stops a negative density (or height), and
    the estimate is then the initial 0, not the weight of the single
    contour, which is negative. *)
Lemma negative_density_counterexample :
  let area := fun n : nat => inject_Z (Z.of_nat n) in
  heaviest nat area (1 # 10) 2 (- (9 # 10)) [2500%nat] = 0
  /\ area 2500%nat * (1 # 10) ^ 2 * 2 * - (9 # 10) == - (45)
  /\ ~ 0 == area 2500%nat * (1 # 10) ^ 2 * 2 * - (9 # 10).
Proof.
  cbv zeta. split; [vm_compute; reflexivity|]. split; [vm_compute; reflexivity|].
  intros H. vm_compute in H. discriminate.
Qed.

End FoodClassifierProps.

(** ** Part VII. What the matcher finds, and what the parser keeps of it *)

Module MatchingProps.
Import Re LabelExtractor Reading Matching.


Section Sound.
Context {R : Type}.

Lemma star_sound p s acc g (k : @cont R) m :
  star p s acc g k = Some m ->
  exists l s', all_in p l = true /\ s = l ++ s' /\ k s' (pushed l acc) g = Some m.
Proof.
  revert acc. induction s as [|a s IH]; intros acc; simpl.
  - intros H. exists "", "". auto.
  - destruct (p a) eqn:Hp.
    + destruct (star p s (a :: acc) g k) as [m'|] eqn:Hs.
      * intros [= <-]. destruct (IH _ Hs) as (l & s' & Hl & -> & Hk).
        exists (String a l), s'. simpl. rewrite Hp, Hl. auto.
      * intros H. exists "", (String a s). auto.
    + intros H. exists "", (String a s). auto.
Qed.

Lemma star_lazy_sound p s acc g (k : @cont R) m :
  star_lazy p s acc g k = Some m ->
  exists l s', all_in p l = true /\ s = l ++ s' /\ k s' (pushed l acc) g = Some m.
Proof.
  revert acc. induction s as [|a s IH]; intros acc; simpl.
  - destruct (k "" acc g) eqn:Hk; [|discriminate].
    intros [= <-]. exists "", "". auto.
  - destruct (k (String a s) acc g) eqn:Hk.
    + intros [= <-]. exists "", (String a s). auto.
    + destruct (p a) eqn:Hp; [|discriminate].
      intros Hs. destruct (IH _ Hs) as (l & s' & Hl & -> & Hk').
      exists (String a l), s'. simpl. rewrite Hp, Hl. auto.
Qed.

Lemma one_sound p s acc g (k : @cont R) m :
  one p s acc g k = Some m ->
  exists a s', p a = true /\ s = String a s' /\ k s' (a :: acc) g = Some m.
Proof.
  unfold one. destruct s as [|a s]; [discriminate|].
  destruct (p a) eqn:Hp; [|discriminate]. eauto.
Qed.

Lemma run_sound r : forall s acc g (k : @cont R) m,
  run r s acc g k = Some m ->
  exists s' acc' g', matches r s acc g s' acc' g' /\ k s' acc' g' = Some m.
Proof.
  induction r; intros s acc g k m; simpl.
  - intros H. exists s, acc, g. auto.
  - intros H. destruct (one_sound _ _ _ _ _ _ H) as (a & s' & Hp & -> & Hk).
    apply Ascii.eqb_eq in Hp. subst a. exists s', (c :: acc), g. auto.
  - intros H. destruct (one_sound _ _ _ _ _ _ H) as (a & s' & Hp & -> & Hk).
    exists s', (a :: acc), g. split; [|exact Hk]. exists a. auto.
  - intros H. destruct (IHr1 _ _ _ _ _ H) as (s1 & a1 & g1 & H1 & H2).
    destruct (IHr2 _ _ _ _ _ H2) as (s2 & a2 & g2 & H3 & Hk).
    exists s2, a2, g2. split; [|exact Hk]. exists s1, a1, g1. auto.
  - destruct (run r1 s acc g k) as [m'|] eqn:H1.
    + intros [= <-]. destruct (IHr1 _ _ _ _ _ H1) as (s' & a' & g' & Hm & Hk).
      exists s', a', g'. auto.
    + intros H2. destruct (IHr2 _ _ _ _ _ H2) as (s' & a' & g' & Hm & Hk).
      exists s', a', g'. auto.
  - destruct (run r s acc g k) as [m'|] eqn:H1.
    + intros [= <-]. destruct (IHr _ _ _ _ _ H1) as (s' & a' & g' & Hm & Hk).
      exists s', a', g'. auto.
    + intros H2. exists s, acc, g. auto.
  - intros H. destruct (star_sound _ _ _ _ _ _ H) as (l & s' & Hl & -> & Hk).
    exists s', (pushed l acc), g. split; [|exact Hk]. exists l. auto.
  - intros H. destruct (one_sound _ _ _ _ _ _ H) as (a & s1 & Hp & -> & H1).
    destruct (star_sound _ _ _ _ _ _ H1) as (l & s' & Hl & -> & Hk).
    exists s', (pushed l (a :: acc)), g. split; [|exact Hk]. exists a, l. auto.
  - intros H. destruct (one_sound _ _ _ _ _ _ H) as (a & s1 & Hp & -> & H1).
    destruct (star_lazy_sound _ _ _ _ _ _ H1) as (l & s' & Hl & -> & Hk).
    exists s', (pushed l (a :: acc)), g. split; [|exact Hk]. exists a, l. auto.
  - intros H. destruct (IHr _ _ _ _ _ H) as (s' & a' & g' & Hm & Hk).
    exists s', (a' ++ acc)%list, (<[i := Some (text_of a')]> g').
    split; [|exact Hk]. exists a', g'. auto.
Qed.
End Sound.

(** *** What a match consumes and captures *)

Lemma sapp_cons a (s t : string) : String a s ++ t = String a (s ++ t).
Proof. reflexivity. Qed.

Lemma sapp_nil_r (s : string) : s ++ "" = s.
Proof. induction s as [|a s IH]; [reflexivity|]. rewrite sapp_cons, IH. reflexivity. Qed.

Lemma sapp_assoc (s t u : string) : (s ++ t) ++ u = s ++ t ++ u.
Proof.
  induction s as [|a s IH]; [reflexivity|]. rewrite !sapp_cons, IH. reflexivity.
Qed.

Lemma string_of_list_ascii_snoc l a :
  string_of_list_ascii (l ++ [a]) = string_of_list_ascii l ++ String a "".
Proof.
  induction l as [|b l IH]; [reflexivity|].
  change (string_of_list_ascii ((b :: l) ++ [a]))
    with (String b (string_of_list_ascii (l ++ [a]))).
  rewrite IH. reflexivity.
Qed.

Lemma pushed_text l acc : text_of (pushed l acc) = text_of acc ++ l.
Proof.
  revert acc. induction l as [|a l IH]; intros acc.
  - symmetry. apply sapp_nil_r.
  - change (pushed (String a l) acc) with (pushed l (a :: acc)). rewrite IH.
    unfold text_of. change (rev (a :: acc)) with (rev acc ++ [a])%list.
    rewrite string_of_list_ascii_snoc, sapp_assoc. reflexivity.
Qed.

Lemma text_of_app inner acc : text_of (inner ++ acc) = text_of acc ++ text_of inner.
Proof.
  unfold text_of. rewrite rev_app_distr.
  induction (rev acc) as [|b l IH]; [reflexivity|].
  change (string_of_list_ascii ((b :: l) ++ rev inner))
    with (String b (string_of_list_ascii (l ++ rev inner))).
  rewrite IH. reflexivity.
Qed.

(** A match consumes a prefix [l] of the subject, and the open-group
    characters grow by exactly that prefix. *)
Lemma matches_consumes r : forall s acc g s2 acc2 g2,
  matches r s acc g s2 acc2 g2 ->
  exists l, s = l ++ s2 /\ text_of acc2 = text_of acc ++ l.
Proof.
  induction r; intros s acc g s2 acc2 g2; simpl.
  - intros (-> & -> & _). exists "". split; [reflexivity|]. symmetry. apply sapp_nil_r.
  - intros (-> & -> & _). exists (String c ""). split; [reflexivity|].
    apply (pushed_text (String c "") acc).
  - intros (a & _ & -> & -> & _). exists (String a ""). split; [reflexivity|].
    apply (pushed_text (String a "") acc).
  - intros (s1 & a1 & g1 & H1 & H2).
    destruct (IHr1 _ _ _ _ _ _ H1) as (l1 & -> & E1).
    destruct (IHr2 _ _ _ _ _ _ H2) as (l2 & -> & E2).
    exists (l1 ++ l2). rewrite sapp_assoc, E2, E1, sapp_assoc. auto.
  - intros [H|H]; eauto.
  - intros [H|(-> & -> & _)]; [eauto|].
    exists "". split; [reflexivity|]. symmetry. apply sapp_nil_r.
  - intros (l & _ & -> & -> & _). exists l. split; [reflexivity|apply pushed_text].
  - intros (a & l & _ & _ & -> & -> & _). exists (String a l).
    split; [reflexivity|]. apply (pushed_text (String a l) acc).
  - intros (a & l & _ & _ & -> & -> & _). exists (String a l).
    split; [reflexivity|]. apply (pushed_text (String a l) acc).
  - intros (inner & g1 & H & -> & _).
    destruct (IHr _ _ _ _ _ _ H) as (l & -> & E).
    exists l. split; [reflexivity|]. rewrite text_of_app, E. reflexivity.
Qed.

Lemma within_moves s0 s acc g l s2 acc2 :
  s = l ++ s2 -> text_of acc2 = text_of acc ++ l ->
  within s0 s acc g -> within s0 s2 acc2 g.
Proof.
  intros -> E ((pre & Hpre) & Hg). split; [|exact Hg].
  exists pre. rewrite E, sapp_assoc. exact Hpre.
Qed.

Lemma matches_within s0 r : forall s acc g s2 acc2 g2,
  matches r s acc g s2 acc2 g2 -> within s0 s acc g -> within s0 s2 acc2 g2.
Proof.
  induction r; intros s acc g s2 acc2 g2 Hm Hw.
  - destruct Hm as (-> & -> & ->). exact Hw.
  - destruct (matches_consumes _ _ _ _ _ _ _ Hm) as (l & Hl & E).
    destruct Hm as (_ & _ & ->). eapply within_moves; eauto.
  - destruct (matches_consumes _ _ _ _ _ _ _ Hm) as (l & Hl & E).
    destruct Hm as (a & _ & _ & _ & ->). eapply within_moves; eauto.
  - destruct Hm as (s1 & a1 & g1 & H1 & H2). eauto.
  - destruct Hm as [H|H]; eauto.
  - destruct Hm as [H|(-> & -> & ->)]; eauto.
  - destruct (matches_consumes _ _ _ _ _ _ _ Hm) as (l & Hl & E).
    destruct Hm as (l0 & _ & _ & _ & ->). eapply within_moves; eauto.
  - destruct (matches_consumes _ _ _ _ _ _ _ Hm) as (l & Hl & E).
    destruct Hm as (a & l0 & _ & _ & _ & _ & ->). eapply within_moves; eauto.
  - destruct (matches_consumes _ _ _ _ _ _ _ Hm) as (l & Hl & E).
    destruct Hm as (a & l0 & _ & _ & _ & _ & ->). eapply within_moves; eauto.
  - destruct (matches_consumes _ _ _ _ _ _ _ Hm) as (l & Hl & E).
    destruct Hm as (inner & g1 & H & -> & ->).
    destruct (matches_consumes _ _ _ _ _ _ _ H) as (l1 & Hl1 & E1).
    destruct Hw as ((pre & Hpre) & Hg).
    assert (Hin : within s0 s2 inner g1).
    { eapply IHr; [exact H|]. split; [|exact Hg].
      exists (pre ++ text_of acc). rewrite sapp_assoc. exact Hpre. }
    split.
    { exists pre. rewrite E, sapp_assoc, <- Hl. exact Hpre. }
    intros j v Hj. unfold groups in *. destruct (decide (i = j)) as [->|Hne].
    + destruct (decide (j < length g1)%nat) as [Hlt|Hge].
      * rewrite list_lookup_insert_eq in Hj by exact Hlt. injection Hj as <-.
        change (text_of []) with "" in E1. change ("" ++ l1) with l1 in E1.
        rewrite E1. exists (pre ++ text_of acc), s2.
        rewrite sapp_assoc, <- Hl1. exact Hpre.
      * rewrite list_insert_ge in Hj by lia. apply (proj2 Hin _ _ Hj).
    + rewrite list_lookup_insert_ne in Hj by exact Hne. apply (proj2 Hin _ _ Hj).
Qed.

(** Every group of a search result is a piece of the text searched. *)
Lemma search_with_groups_occur slots r text g :
  search_with slots r text = Some g ->
  forall i v, g !! i = Some (Some v) -> occurs_in v text.
Proof.
  assert (Hgen : forall pre s, text = pre ++ s -> search_with slots r s = Some g ->
            forall i v, g !! i = Some (Some v) -> occurs_in v text).
  { intros pre s. revert pre. induction s as [|a s IH]; intros pre Htext Hs i v Hi.
    - simpl in Hs. destruct (match_with slots r "") as [g0|] eqn:Hm; [|discriminate].
      injection Hs as ->. unfold match_with in Hm.
      destruct (run_sound _ _ _ _ _ _ Hm) as (s2 & a2 & g2 & Hmt & [= <-]).
      refine (proj2 (matches_within text _ _ _ _ _ _ _ Hmt _) i v Hi).
      split; [exists pre; exact Htext|].
      intros j w Hj. apply lookup_replicate in Hj as [[=] _].
    - simpl in Hs. destruct (match_with slots r (String a s)) as [g0|] eqn:Hm.
      + injection Hs as ->. unfold match_with in Hm.
        destruct (run_sound _ _ _ _ _ _ Hm) as (s2 & a2 & g2 & Hmt & [= <-]).
        refine (proj2 (matches_within text _ _ _ _ _ _ _ Hmt _) i v Hi).
        split; [exists pre; exact Htext|].
        intros j w Hj. apply lookup_replicate in Hj as [[=] _].
      + apply (IH (pre ++ String a "") ltac:(rewrite sapp_assoc; exact Htext) Hs i v Hi). }
  intros Hs. exact (Hgen "" text eq_refl Hs).
Qed.

Lemma first_truthy_some g v :
  first_truthy g = Some v -> v <> "" /\ exists i, g !! i = Some (Some v).
Proof.
  induction g as [|[[|a s]|] g IH]; simpl; try discriminate.
  - intros H. destruct (IH H) as (Hne & i & Hi). split; [exact Hne|]. exists (S i). exact Hi.
  - intros [= <-]. split; [discriminate|]. exists 0%nat. reflexivity.
  - intros H. destruct (IH H) as (Hne & i & Hi). split; [exact Hne|]. exists (S i). exact Hi.
Qed.

Lemma occurs_in_trans a b c : occurs_in a b -> occurs_in b c -> occurs_in a c.
Proof.
  intros (p1 & q1 & ->) (p2 & q2 & ->).
  exists (p2 ++ p1), (q1 ++ q2). rewrite !sapp_assoc. reflexivity.
Qed.

(** X1. Whatever the text, the parser keeps only what is written on the
    label: every value is a piece of the text and is not empty, and the
    [Weight] and the [DV%] of a row are pieces of its value, hence of the
    text. *)
Theorem extracted_values_occur (text : string) :
  Forall (fun r =>
    (forall v, Value r = Some v -> v <> "" /\ occurs_in v text)
    /\ (forall w, Weight r = Some w ->
          exists v, Value r = Some v /\ occurs_in w v /\ occurs_in w text)
    /\ (forall d, DV r = Some d ->
          exists v, Value r = Some v /\ occurs_in d v /\ occurs_in d text))
  (extract_nutritional_info text).
Proof.
  unfold extract_nutritional_info, extract_data.
  apply Forall_fmap, Forall_fmap, Forall_forall. intros [key p] _.
  assert (Hraw : forall v, raw_value p text = Some v -> v <> "" /\ occurs_in v text).
  { intros v. unfold raw_value, search.
    destruct (search_with (ngroups p) p text) as [g|] eqn:Hs; [|discriminate].
    intros Hv. destruct (first_truthy_some _ _ Hv) as (Hne & i & Hi).
    split; [exact Hne|]. exact (search_with_groups_occur _ _ _ _ Hs i v Hi). }
  assert (Hcol : forall i v w,
            raw_value p text = Some v ->
            mjoin (str_extract split_pattern (Some v) !! i) = Some w ->
            occurs_in w v /\ occurs_in w text).
  { intros i v w Hv Hw.
    assert (Hin : occurs_in w v).
    { unfold str_extract, search in Hw.
      destruct (search_with (ngroups split_pattern) split_pattern v) as [g|] eqn:Hs.
      - destruct (g !! i) as [[w0|]|] eqn:Hi; simpl in Hw; try discriminate.
        injection Hw as ->. exact (search_with_groups_occur _ _ _ _ Hs i w Hi).
      - match type of Hw with mjoin ?x = _ => destruct x as [o|] eqn:Hi end;
          [|simpl in Hw; discriminate].
        apply lookup_replicate in Hi as [-> _]. simpl in Hw. discriminate. }
    split; [exact Hin|]. eapply occurs_in_trans; [exact Hin|]. apply (Hraw v Hv). }
  unfold compose, split_row. simpl.
  split; [exact Hraw|]. split.
  - intros w Hw. destruct (raw_value p text) as [v|] eqn:Hv; [|discriminate].
    exists v. split; [reflexivity|]. exact (Hcol 0%nat v w eq_refl Hw).
  - intros d Hd. destruct (raw_value p text) as [v|] eqn:Hv; [|discriminate].
    exists v. split; [reflexivity|]. exact (Hcol 1%nat v d eq_refl Hd).
Qed.

(** *** The matcher finds a match whenever there is one *)

Section Complete.
Context {R : Type}.

Lemma star_complete p l : forall s' acc g (k : @cont R),
  all_in p l = true -> k s' (pushed l acc) g <> None ->
  star p (l ++ s') acc g k <> None.
Proof.
  induction l as [|a l IH]; intros s' acc g k Hl Hk.
  - change ("" ++ s') with s'. simpl in Hk.
    destruct s' as [|b s']; simpl; [exact Hk|].
    destruct (p b); [|exact Hk].
    destruct (star p s' (b :: acc) g k); [discriminate|exact Hk].
  - simpl in Hl. apply andb_true_iff in Hl as [Ha Hl].
    rewrite sapp_cons. simpl. rewrite Ha.
    specialize (IH s' (a :: acc) g k Hl Hk).
    destruct (star p (l ++ s') (a :: acc) g k); [discriminate|contradiction].
Qed.

Lemma star_lazy_complete p l : forall s' acc g (k : @cont R),
  all_in p l = true -> k s' (pushed l acc) g <> None ->
  star_lazy p (l ++ s') acc g k <> None.
Proof.
  induction l as [|a l IH]; intros s' acc g k Hl Hk.
  - change ("" ++ s') with s'. simpl in Hk.
    destruct s' as [|b s']; simpl.
    + destruct (k "" acc g); [discriminate|contradiction].
    + destruct (k (String b s') acc g); [discriminate|contradiction].
  - simpl in Hl. apply andb_true_iff in Hl as [Ha Hl].
    rewrite sapp_cons. simpl. rewrite Ha.
    destruct (k (String a (l ++ s')) acc g); [discriminate|].
    exact (IH s' (a :: acc) g k Hl Hk).
Qed.

Lemma run_complete r : forall s acc g s' acc' g' (k : @cont R),
  matches r s acc g s' acc' g' -> k s' acc' g' <> None -> run r s acc g k <> None.
Proof.
  induction r; intros s acc g s' acc' g' k Hm Hk; simpl in Hm |- *.
  - destruct Hm as (-> & -> & ->). exact Hk.
  - destruct Hm as (-> & -> & ->). simpl. rewrite Ascii.eqb_refl. exact Hk.
  - destruct Hm as (a & Hp & -> & -> & ->). simpl. rewrite Hp. exact Hk.
  - destruct Hm as (s1 & a1 & g1 & H1 & H2).
    apply (IHr1 _ _ _ _ _ _ _ H1). apply (IHr2 _ _ _ _ _ _ _ H2 Hk).
  - destruct (run r1 s acc g k) eqn:E; [discriminate|].
    destruct Hm as [H|H]; [|exact (IHr2 _ _ _ _ _ _ _ H Hk)].
    exfalso. exact (IHr1 _ _ _ _ _ _ _ H Hk E).
  - destruct (run r s acc g k) eqn:E; [discriminate|].
    destruct Hm as [H|(-> & -> & ->)]; [|exact Hk].
    exfalso. exact (IHr _ _ _ _ _ _ _ H Hk E).
  - destruct Hm as (l & Hl & -> & -> & ->). apply star_complete; assumption.
  - destruct Hm as (a & l & Hp & Hl & -> & -> & ->). simpl. rewrite Hp.
    apply star_complete; assumption.
  - destruct Hm as (a & l & Hp & Hl & -> & -> & ->). simpl. rewrite Hp.
    apply star_lazy_complete; assumption.
  - destruct Hm as (inner & g1 & H & -> & ->).
    apply (IHr _ _ _ _ _ _ _ H). exact Hk.
Qed.
End Complete.

(** *** Checks on the syntax of a pattern *)

Lemma cls_subset_spec p q a : cls_subset p q = true -> p a = true -> q a = true.
Proof.
  unfold cls_subset. rewrite forallb_forall. intros H Hp.
  specialize (H (nat_of_ascii a)). rewrite ascii_nat_embedding, Hp in H.
  apply H, in_seq. pose proof (nat_ascii_bounded a). lia.
Qed.

Lemma any_in_app p s t : any_in p (s ++ t) = any_in p s || any_in p t.
Proof.
  induction s as [|a s IH]; [reflexivity|].
  rewrite sapp_cons. simpl. rewrite IH, orb_assoc. reflexivity.
Qed.

Lemma any_in_occurs p sub text :
  occurs_in sub text -> any_in p sub = true -> any_in p text = true.
Proof.
  intros (pre & post & ->) H. rewrite !any_in_app, H, orb_true_r. reflexivity.
Qed.

Lemma first_in_any p s : first_in p s = true -> any_in p s = true.
Proof. destruct s as [|a s]; simpl; [discriminate|]. intros ->. reflexivity. Qed.

Lemma all_in_avoids p q l :
  cls_subset p (fun a => negb (q a)) = true -> all_in p l = true -> any_in q l = false.
Proof.
  intros Hs. induction l as [|a l IH]; simpl; [reflexivity|].
  intros H. apply andb_true_iff in H as [Ha Hl].
  apply (cls_subset_spec _ _ _ Hs) in Ha. apply negb_true_iff in Ha.
  rewrite Ha, (IH Hl). reflexivity.
Qed.

(** What a match consumes, when the pattern avoids a class. *)
Lemma matches_avoids q r : forall s acc g s2 acc2 g2,
  avoids q r = true -> matches r s acc g s2 acc2 g2 ->
  exists l, s = l ++ s2 /\ text_of acc2 = text_of acc ++ l /\ any_in q l = false.
Proof.
  induction r; intros s acc g s2 acc2 g2 Hq; simpl in Hq |- *.
  - intros (-> & -> & _). exists "". split; [reflexivity|].
    split; [symmetry; apply sapp_nil_r|reflexivity].
  - intros (-> & -> & _). exists (String c ""). split; [reflexivity|].
    split; [apply (pushed_text (String c "") acc)|].
    simpl. apply negb_true_iff in Hq. rewrite Hq. reflexivity.
  - intros (a & Hp & -> & -> & _). exists (String a ""). split; [reflexivity|].
    split; [apply (pushed_text (String a "") acc)|].
    apply (all_in_avoids p q (String a "") Hq). simpl. rewrite Hp. reflexivity.
  - apply andb_true_iff in Hq as [Hq1 Hq2].
    intros (s1 & a1 & g1 & H1 & H2).
    destruct (IHr1 _ _ _ _ _ _ Hq1 H1) as (l1 & -> & E1 & N1).
    destruct (IHr2 _ _ _ _ _ _ Hq2 H2) as (l2 & -> & E2 & N2).
    exists (l1 ++ l2). rewrite sapp_assoc, E2, E1, sapp_assoc, any_in_app, N1, N2. auto.
  - apply andb_true_iff in Hq as [Hq1 Hq2]. intros [H|H]; eauto.
  - intros [H|(-> & -> & _)]; [eauto|].
    exists "". split; [reflexivity|]. split; [symmetry; apply sapp_nil_r|reflexivity].
  - intros (l & Hl & -> & -> & _). exists l. split; [reflexivity|].
    split; [apply pushed_text|]. exact (all_in_avoids p q l Hq Hl).
  - intros (a & l & Hp & Hl & -> & -> & _). exists (String a l).
    split; [reflexivity|]. split; [apply (pushed_text (String a l) acc)|].
    apply (all_in_avoids p q (String a l) Hq). simpl. rewrite Hp, Hl. reflexivity.
  - intros (a & l & Hp & Hl & -> & -> & _). exists (String a l).
    split; [reflexivity|]. split; [apply (pushed_text (String a l) acc)|].
    apply (all_in_avoids p q (String a l) Hq). simpl. rewrite Hp, Hl. reflexivity.
  - intros (inner & g1 & H & -> & _).
    destruct (IHr _ _ _ _ _ _ Hq H) as (l & -> & E & N).
    exists l. split; [reflexivity|]. rewrite text_of_app, E. auto.
Qed.

(** What a match consumes, when the pattern leads with a class. *)
Lemma matches_leads q r : forall s acc g s2 acc2 g2,
  leads_with q r = true -> matches r s acc g s2 acc2 g2 ->
  exists l, s = l ++ s2 /\ text_of acc2 = text_of acc ++ l /\ first_in q l = true.
Proof.
  induction r; intros s acc g s2 acc2 g2 Hq; simpl in Hq |- *; try discriminate.
  - intros (-> & -> & _). exists (String c ""). split; [reflexivity|].
    split; [apply (pushed_text (String c "") acc)|exact Hq].
  - intros (a & Hp & -> & -> & _). exists (String a ""). split; [reflexivity|].
    split; [apply (pushed_text (String a "") acc)|].
    exact (cls_subset_spec _ _ _ Hq Hp).
  - intros (s1 & a1 & g1 & H1 & H2).
    destruct (IHr1 _ _ _ _ _ _ Hq H1) as (l1 & -> & E1 & N1).
    destruct (matches_consumes _ _ _ _ _ _ _ H2) as (l2 & -> & E2).
    exists (l1 ++ l2). rewrite sapp_assoc, E2, E1, sapp_assoc.
    split; [reflexivity|]. split; [reflexivity|].
    destruct l1; [discriminate|exact N1].
  - apply andb_true_iff in Hq as [Hq1 Hq2]. intros [H|H]; eauto.
  - intros (a & l & Hp & Hl & -> & -> & _). exists (String a l).
    split; [reflexivity|]. split; [apply (pushed_text (String a l) acc)|].
    exact (cls_subset_spec _ _ _ Hq Hp).
  - intros (a & l & Hp & Hl & -> & -> & _). exists (String a l).
    split; [reflexivity|]. split; [apply (pushed_text (String a l) acc)|].
    exact (cls_subset_spec _ _ _ Hq Hp).
  - intros (inner & g1 & H & -> & _).
    destruct (IHr _ _ _ _ _ _ Hq H) as (l & -> & E & N).
    exists l. split; [reflexivity|]. rewrite text_of_app, E. auto.
Qed.

(** A property of the text of every closed group is kept by a match when
    the body of every group of the pattern ensures it. *)
Section GroupInvariant.
Variable P : string -> Prop.
Variable check : regex -> bool.
Hypothesis check_sound : forall r s g s2 inner g2,
  check r = true -> matches r s [] g s2 inner g2 -> P (text_of inner).

Lemma matches_groups_sat r : forall s acc g s2 acc2 g2,
  groups_all check r = true -> matches r s acc g s2 acc2 g2 ->
  groups_sat P g -> groups_sat P g2.
Proof.
  induction r; intros s acc g s2 acc2 g2 Hc; simpl in Hc |- *.
  - intros (_ & _ & ->). auto.
  - intros (_ & _ & ->). auto.
  - intros (a & _ & _ & _ & ->). auto.
  - apply andb_true_iff in Hc as [Hc1 Hc2].
    intros (s1 & a1 & g1 & H1 & H2). eauto.
  - apply andb_true_iff in Hc as [Hc1 Hc2]. intros [H|H]; eauto.
  - intros [H|(_ & _ & ->)]; eauto.
  - intros (l & _ & _ & _ & ->). auto.
  - intros (a & l & _ & _ & _ & _ & ->). auto.
  - intros (a & l & _ & _ & _ & _ & ->). auto.
  - apply andb_true_iff in Hc as [Hc1 Hc2].
    intros (inner & g1 & H & _ & ->) Hg j v Hj.
    pose proof (IHr _ _ _ _ _ _ Hc2 H Hg) as Hg1.
    unfold groups in *. destruct (decide (i = j)) as [->|Hne].
    + destruct (decide (j < length g1)%nat) as [Hlt|Hge].
      * rewrite list_lookup_insert_eq in Hj by exact Hlt. injection Hj as <-.
        exact (check_sound _ _ _ _ _ _ Hc1 H).
      * rewrite list_insert_ge in Hj by lia. exact (Hg1 _ _ Hj).
    + rewrite list_lookup_insert_ne in Hj by exact Hne. exact (Hg1 _ _ Hj).
Qed.

Lemma search_with_groups_sat slots r text g :
  groups_all check r = true -> search_with slots r text = Some g -> groups_sat P g.
Proof.
  intros Hc. induction text as [|a s IH]; simpl.
  - destruct (match_with slots r "") as [g0|] eqn:Hm; [|discriminate].
    intros [= <-]. unfold match_with in Hm.
    destruct (run_sound _ _ _ _ _ _ Hm) as (s2 & a2 & g2 & Hmt & [= <-]).
    apply (matches_groups_sat _ _ _ _ _ _ _ Hc Hmt).
    intros j w Hj. apply lookup_replicate in Hj as [[=] _].
  - destruct (match_with slots r (String a s)) as [g0|] eqn:Hm; [|exact IH].
    intros [= <-]. unfold match_with in Hm.
    destruct (run_sound _ _ _ _ _ _ Hm) as (s2 & a2 & g2 & Hmt & [= <-]).
    apply (matches_groups_sat _ _ _ _ _ _ _ Hc Hmt).
    intros j w Hj. apply lookup_replicate in Hj as [[=] _].
Qed.

Lemma raw_value_sat p text v :
  groups_all check p = true -> raw_value p text = Some v -> P v.
Proof.
  intros Hc. unfold raw_value, search.
  destruct (search_with (ngroups p) p text) as [g|] eqn:Hs; [|discriminate].
  intros Hv. destruct (first_truthy_some _ _ Hv) as (_ & i & Hi).
  exact (search_with_groups_sat _ _ _ _ Hc Hs i v Hi).
Qed.
End GroupInvariant.

Lemma raw_value_avoids q p text v :
  groups_all (avoids q) p = true -> raw_value p text = Some v -> any_in q v = false.
Proof.
  apply (raw_value_sat (fun v => any_in q v = false) (avoids q)).
  intros r s g s2 inner g2 Hc Hm.
  destruct (matches_avoids q r _ _ _ _ _ _ Hc Hm) as (l & _ & -> & Hl). exact Hl.
Qed.

Lemma raw_value_leads q p text v :
  groups_all (leads_with q) p = true -> raw_value p text = Some v -> first_in q v = true.
Proof.
  apply (raw_value_sat (fun v => first_in q v = true) (leads_with q)).
  intros r s g s2 inner g2 Hc Hm.
  destruct (matches_leads q r _ _ _ _ _ _ Hc Hm) as (l & _ & -> & Hl). exact Hl.
Qed.

(** *** The split into [Weight] and [DV%] *)

Lemma matches_no_groups r : forall s acc g s2 acc2 g2,
  ngroups r = 0%nat -> matches r s acc g s2 acc2 g2 -> g2 = g.
Proof.
  induction r; intros s acc g s2 acc2 g2 Hn; simpl in Hn |- *; try discriminate.
  - intros (_ & _ & ->). reflexivity.
  - intros (_ & _ & ->). reflexivity.
  - intros (a & _ & _ & _ & ->). reflexivity.
  - intros (s1 & a1 & g1 & H1 & H2).
    rewrite (IHr2 _ _ _ _ _ _ ltac:(lia) H2). exact (IHr1 _ _ _ _ _ _ ltac:(lia) H1).
  - intros [H|H]; [exact (IHr1 _ _ _ _ _ _ ltac:(lia) H)|exact (IHr2 _ _ _ _ _ _ ltac:(lia) H)].
  - intros [H|(_ & _ & ->)]; [exact (IHr _ _ _ _ _ _ Hn H)|reflexivity].
  - intros (l & _ & _ & _ & ->). reflexivity.
  - intros (a & l & _ & _ & _ & _ & ->). reflexivity.
  - intros (a & l & _ & _ & _ & _ & ->). reflexivity.
Qed.

Lemma text_of_cons c acc : text_of (c :: acc) = text_of acc ++ String c "".
Proof. exact (pushed_text (String c "") acc). Qed.

Local Abbreviation pct_short := (seq [Plus digit; Lit "%"]).
Local Abbreviation pct_long := (seq [Plus digit; lit "% DV"]).
Local Abbreviation weight_unit :=
  (seq [Plus digit; Opt (Lit "."); Star digit;
        Opt (Alt (lit "mg") (Alt (Lit "g") (lit "mcg")))]).

(** The group of the percentage: whenever the long alternative could
    match, the short one, tried first, matches too, and nothing after the
    group can make it fail. *)
Lemma run_dv_group {R : Type} s acc g (k : @cont R) m :
  (forall s' acc' g', k s' acc' g' <> None) ->
  run (Group 1 (Alt pct_short pct_long)) s acc g k = Some m ->
  exists a l s',
    digit a = true /\ all_in digit l = true /\ s = String a (l ++ String "%" s')
    /\ k s' (("%"%char :: pushed l [a]) ++ acc)%list
         (<[1%nat := Some (String a l ++ "%")]> g) = Some m.
Proof.
  intros Hk.
  set (k' := fun s' acc' g' =>
               k s' (acc' ++ acc)%list (<[1%nat := Some (text_of acc')]> g')).
  change (run (Group 1 (Alt pct_short pct_long)) s acc g k)
    with (match run pct_short s [] g k' with
          | Some m => Some m
          | None => run pct_long s [] g k'
          end).
  assert (Htext : forall a l, text_of ("%"%char :: pushed l [a]) = String a l ++ "%").
  { intros a l. rewrite text_of_cons, pushed_text. reflexivity. }
  destruct (run pct_short s [] g k') as [m'|] eqn:E1.
  - intros [= <-].
    destruct (run_sound _ _ _ _ _ _ E1) as (s' & acc' & g' & Hm & Hk').
    simpl in Hm.
    destruct Hm as (s1 & acc1 & g1 & (a & l & Ha & Hl & -> & -> & ->) & -> & -> & ->).
    exists a, l, s'. repeat split; try assumption.
    unfold k' in Hk'. rewrite Htext in Hk'. exact Hk'.
  - intros E2. exfalso.
    destruct (run_sound _ _ _ _ _ _ E2) as (s' & acc' & g' & Hm & _).
    simpl in Hm.
    destruct Hm as (s1 & acc1 & g1 & (a & l & Ha & Hl & -> & -> & ->) & Hlong).
    destruct Hlong as (s2 & acc2 & g2 & (-> & -> & ->) & _).
    refine (run_complete pct_short _ _ _ s2 ("%"%char :: pushed l [a]) g k' _ _ E1).
    + simpl. exists (String "%" s2), (pushed l [a]), g. split; [|auto].
      exists a, l. auto.
    + apply Hk.
Qed.

(** What a match of the split pattern at the start of [s] gives: the
    weight heads [s] and begins with a digit; the percentage, when there is
    one, follows it after white space only, and is a run of digits and the
    percent sign. *)
Lemma match_split_pattern s g :
  match_with 2 split_pattern s = Some g ->
  exists w rest,
    s = w ++ rest /\ first_in digit w = true
    /\ (g = [Some w; None]
        \/ exists sp a l rest',
             all_in space sp = true /\ digit a = true /\ all_in digit l = true
             /\ rest = sp ++ String a l ++ String "%" rest'
             /\ g = [Some w; Some (String a l ++ "%")]).
Proof.
  unfold match_with.
  change (run split_pattern s [] (replicate 2 None) (fun _ _ g => Some g))
    with (run (Group 0 weight_unit) s [] [None; None]
            (fun s1 acc1 g1 =>
               star space s1 acc1 g1 (fun s2 acc2 g2 =>
                 match run (Group 1 (Alt pct_short pct_long)) s2 acc2 g2
                         (fun _ _ g => Some g) with
                 | Some m => Some m
                 | None => Some g2
                 end))).
  intros H.
  destruct (run_sound _ _ _ _ _ _ H) as (s1 & acc1 & g1 & Hm & H1). clear H.
  destruct Hm as (inner & g0 & Hm & -> & ->).
  pose proof (matches_no_groups weight_unit _ _ _ _ _ _ eq_refl Hm) as ->.
  destruct (matches_leads digit weight_unit _ _ _ _ _ _ eq_refl Hm) as (w & -> & Hw & Hd).
  change (text_of [] ++ w) with w in Hw. rewrite Hw in *.
  change (<[0%nat := Some w]> [None; None]) with [Some w; @None string] in H1.
  exists w, s1. split; [reflexivity|]. split; [exact Hd|].
  destruct (star_sound _ _ _ _ _ _ H1) as (sp & s2 & Hsp & -> & H2). clear H1.
  destruct (run (Group 1 (Alt pct_short pct_long)) s2 _ _ _) as [m|] eqn:E.
  - injection H2 as ->.
    assert (Htot : forall (s' : string) (acc' : list ascii) (g' : groups),
              (fun (_ : string) (_ : list ascii) (g : groups) => Some g) s' acc' g'
              <> None) by (intros ? ? ?; discriminate).
    destruct (run_dv_group _ _ _ _ _ Htot E)
      as (a & l & rest' & Ha & Hl & -> & [= <-]).
    right. exists sp, a, l, rest'. repeat split; assumption.
  - injection H2 as <-. left. reflexivity.
Qed.

Lemma search_split_pattern v g :
  search split_pattern v = Some g ->
  exists w, first_in digit w = true /\ occurs_in w v
    /\ (g = [Some w; None]
        \/ exists a l, digit a = true /\ all_in digit l = true
             /\ g = [Some w; Some (String a l ++ "%")]).
Proof.
  unfold search. change (ngroups split_pattern) with 2%nat.
  assert (Hgen : forall pre s, v = pre ++ s -> search_with 2 split_pattern s = Some g ->
            exists w, first_in digit w = true /\ occurs_in w v
              /\ (g = [Some w; None]
                  \/ exists a l, digit a = true /\ all_in digit l = true
                       /\ g = [Some w; Some (String a l ++ "%")])).
  { intros pre s. revert pre.
    assert (Hhere : forall pre s, v = pre ++ s -> match_with 2 split_pattern s = Some g ->
              exists w, first_in digit w = true /\ occurs_in w v
                /\ (g = [Some w; None]
                    \/ exists a l, digit a = true /\ all_in digit l = true
                         /\ g = [Some w; Some (String a l ++ "%")])).
    { intros pre s0 Hv Hm.
      destruct (match_split_pattern _ _ Hm) as (w & rest & -> & Hd & Hg).
      exists w. split; [exact Hd|]. split; [exists pre, rest; exact Hv|].
      destruct Hg as [->|(sp & a & l & rest' & _ & Ha & Hl & _ & ->)]; [left; reflexivity|].
      right. exists a, l. auto. }
    induction s as [|a s IH]; intros pre Hv H; cbn [search_with] in H.
    - destruct (match_with 2 split_pattern "") as [g0|] eqn:Hm; [|discriminate].
      injection H as ->. exact (Hhere pre "" Hv Hm).
    - destruct (match_with 2 split_pattern (String a s)) as [g0|] eqn:Hm.
      + injection H as ->. exact (Hhere pre _ Hv Hm).
      + apply (IH (pre ++ String a "")); [|exact H]. rewrite sapp_assoc. exact Hv. }
  exact (Hgen "" v eq_refl).
Qed.

(** *** The columns [Weight] and [DV%] *)

Lemma match_found_by_search slots r s g :
  match_with slots r s = Some g -> search_with slots r s = Some g.
Proof. intros H. destruct s; simpl; rewrite H; reflexivity. Qed.

Lemma search_found_later slots r a s :
  search_with slots r s <> None -> search_with slots r (String a s) <> None.
Proof.
  intros H. cbn [search_with].
  destruct (match_with slots r (String a s)); [discriminate|exact H].
Qed.

(** A cell that begins with a digit is split at its start. *)
Lemma match_split_at_digit v :
  first_in digit v = true -> match_with 2 split_pattern v <> None.
Proof.
  destruct v as [|a v]; [discriminate|]. simpl. intros Ha.
  unfold match_with.
  apply (run_complete split_pattern _ _ _ v [a] [Some (String a ""); None]);
    [|discriminate].
  simpl. exists v, [a], [Some (String a ""); None]. split.
  - exists [a], [None; None]. split; [|split; reflexivity].
    exists v, [a], [None; None]. split; [exists a, ""; auto|].
    exists v, [a], [None; None]. split; [right; auto|].
    exists v, [a], [None; None]. split; [exists ""; auto|right; auto].
  - exists v, [a], [Some (String a ""); None]. split; [exists ""; auto|right; auto].
Qed.

Lemma search_split_at_digit v :
  any_in digit v = true -> search split_pattern v <> None.
Proof.
  unfold search. change (ngroups split_pattern) with 2%nat.
  induction v as [|a v IH]; [discriminate|]. simpl any_in.
  destruct (digit a) eqn:Ha.
  - intros _. pose proof (match_split_at_digit (String a v) Ha) as Hm.
    destruct (match_with 2 split_pattern (String a v)) as [g|] eqn:E; [|contradiction].
    rewrite (match_found_by_search _ _ _ _ E). discriminate.
  - intros Hv. apply search_found_later, IH, Hv.
Qed.

Lemma weight_of_split key v :
  Weight (split_row (key, Some v)) = None <-> any_in digit v = false.
Proof.
  unfold split_row, str_extract. cbn [snd Weight].
  destruct (search split_pattern v) as [g|] eqn:Hs.
  - destruct (search_split_pattern _ _ Hs) as (w & Hd & Hocc & Hg).
    assert (Hv : any_in digit v = true).
    { exact (any_in_occurs _ _ _ Hocc (first_in_any _ _ Hd)). }
    rewrite Hv.
    destruct Hg as [->|(a & l & _ & _ & ->)]; split; discriminate.
  - split; [|reflexivity]. intros _.
    destruct (any_in digit v) eqn:Hv; [|reflexivity].
    exfalso. exact (search_split_at_digit v Hv Hs).
Qed.

(** X2. In every row that [split_row] builds, a [DV%] cell that is present
    is one or more digits followed by the percent sign (the alternative
    [\d+% DV] of the pattern never contributes), it stands in a row that
    also has a [Weight], and the weight begins with a digit. *)
Theorem dv_is_digits_and_percent (key : string) (value : option string) (d : string) :
  DV (split_row (key, value)) = Some d ->
  (exists a l, digit a = true /\ all_in digit l = true /\ d = String a l ++ "%")
  /\ exists w, Weight (split_row (key, value)) = Some w /\ first_in digit w = true.
Proof.
  unfold split_row, str_extract. cbn [snd DV Weight].
  destruct value as [v|]; [|discriminate].
  destruct (search split_pattern v) as [g|] eqn:Hs; [|discriminate].
  destruct (search_split_pattern _ _ Hs) as (w & Hd & _ & [->|(a & l & Ha & Hl & ->)]);
    [discriminate|].
  intros [= <-]. split; [exists a, l; auto|]. exists w. auto.
Qed.

Lemma dv_is_digits_and_percent_witness :
  DV (split_row ("sodium", Some "160mg 7%")) = Some "7%"
  /\ (exists a l, digit a = true /\ all_in digit l = true /\ "7%" = String a l ++ "%")
  /\ exists w, Weight (split_row ("sodium", Some "160mg 7%")) = Some w
               /\ first_in digit w = true.
Proof.
  split; [reflexivity|].
  apply (dv_is_digits_and_percent "sodium" (Some "160mg 7%") "7%"). reflexivity.
Defined.

(** X3. The [Weight] cell of a row is missing exactly when the row has no
    value or its value holds no digit; a weight that is present begins with a
    digit and is a piece of the value. *)
Theorem weight_missing_iff_no_digit (key : string) (value : option string) :
  (Weight (split_row (key, value)) = None
   <-> forall v, value = Some v -> any_in digit v = false)
  /\ (forall w, Weight (split_row (key, value)) = Some w ->
        first_in digit w = true /\ exists v, value = Some v /\ occurs_in w v).
Proof.
  split.
  - destruct value as [v|].
    + rewrite weight_of_split. split; [intros H v' [= <-]; exact H|auto].
    + split; [intros _ v [=]|reflexivity].
  - intros w. unfold split_row, str_extract. cbn [snd Weight].
    destruct value as [v|]; [|discriminate].
    destruct (search split_pattern v) as [g|] eqn:Hs; [|discriminate].
    destruct (search_split_pattern _ _ Hs) as (w' & Hd & Hocc & Hg).
    intros Hw.
    assert (w' = w) as <-.
    { destruct Hg as [->|(a & l & _ & _ & ->)]; injection Hw as <-; reflexivity. }
    split; [exact Hd|]. exists v. auto.
Qed.

Lemma dv_needs_percent key v :
  any_in pct v = false -> DV (split_row (key, Some v)) = None.
Proof.
  intros Hv. unfold split_row, str_extract. cbn [snd DV].
  destruct (search split_pattern v) as [g|] eqn:Hs; [|reflexivity].
  destruct (search_split_pattern _ _ Hs) as (w & _ & _ & [->|(a & l & _ & _ & ->)]);
    [reflexivity|].
  exfalso.
  pose proof (search_with_groups_occur _ _ _ _ Hs 1%nat _ eq_refl) as Hocc.
  assert (Hp : any_in pct (String a l ++ "%") = true).
  { rewrite any_in_app. apply orb_true_r. }
  rewrite (any_in_occurs _ _ _ Hocc Hp) in Hv. discriminate.
Qed.

(** *** Which rows can have which columns *)

Lemma dv_none_when_avoiding key p text :
  groups_all (avoids pct) p = true ->
  DV (split_row (key, raw_value p text)) = None.
Proof.
  intros Hc. destruct (raw_value p text) as [v|] eqn:Hv; [|reflexivity].
  apply dv_needs_percent. exact (raw_value_avoids pct p text v Hc Hv).
Qed.

Ltac each_row :=
  repeat first [apply List.Forall_nil | apply List.Forall_cons].

Ltac not_listed H :=
  solve [ exfalso; revert H; cbn [fst Nutrient split_row];
          rewrite list_elem_of_In; simpl; intuition discriminate ].

(** X4. Whatever the text, the rows [servings_container], [serving_size],
    [calories], [total_fat], [saturated_fat], [trans_fat], [total_sugars]
    and [protein] have no [DV%]: their patterns capture no percent sign. *)
Theorem plain_rows_have_no_dv (text : string) :
  Forall (fun r => Nutrient r ∈ plain_keys -> DV r = None)
         (extract_nutritional_info text).
Proof.
  unfold extract_nutritional_info, extract_data.
  apply Forall_fmap, Forall_fmap. unfold patterns.
  each_row; unfold compose; intros Hin;
    first [ apply dv_none_when_avoiding; vm_compute; reflexivity
          | not_listed Hin ].
Qed.

Lemma weight_heads key p text v :
  groups_all (leads_with digit) p = true ->
  raw_value p text = Some v ->
  first_in digit v = true
  /\ exists w rest, Weight (split_row (key, Some v)) = Some w /\ v = w ++ rest.
Proof.
  intros Hc Hv. pose proof (raw_value_leads digit p text v Hc Hv) as Hd.
  split; [exact Hd|].
  pose proof (match_split_at_digit v Hd) as Hm.
  destruct (match_with 2 split_pattern v) as [g|] eqn:E; [|contradiction].
  destruct (match_split_pattern _ _ E) as (w & rest & Hwv & _ & Hg).
  exists w, rest. split; [|exact Hwv].
  unfold split_row, str_extract, search. cbn [snd Weight].
  change (ngroups split_pattern) with 2%nat.
  rewrite (match_found_by_search _ _ _ _ E).
  destruct Hg as [->|(sp & a & l & rest' & _ & _ & _ & _ & ->)]; reflexivity.
Qed.

(** X5. Whatever the text, in every row but [serving_size] a value that
    is present begins with a digit, the row has a [Weight], and the weight
    is the head of the value. *)
Theorem weight_heads_value (text : string) :
  Forall (fun r =>
            Nutrient r <> "serving_size" ->
            forall v, Value r = Some v ->
              first_in digit v = true
              /\ exists w rest, Weight r = Some w /\ v = w ++ rest)
         (extract_nutritional_info text).
Proof.
  unfold extract_nutritional_info, extract_data.
  apply Forall_fmap, Forall_fmap. unfold patterns.
  each_row; unfold compose; cbn [fst snd]; intros Hne v Hv;
    try (exfalso; apply Hne; reflexivity);
    change (Value (split_row (?k, ?x))) with x in Hv;
    rewrite Hv; refine (weight_heads _ _ _ _ _ Hv); vm_compute; reflexivity.
Qed.

(** *** Bare numbers *)

(** A greedy star that can take all of [l] and nothing more, and after
    which the rest of the pattern succeeds, takes all of [l]. *)
Lemma star_greedy {R : Type} p l : forall s' acc g (k : @cont R) m,
  all_in p l = true -> first_in p s' = false ->
  k s' (pushed l acc) g = Some m ->
  star p (l ++ s') acc g k = Some m.
Proof.
  induction l as [|a l IH]; intros s' acc g k m Hl Hs Hk.
  - change ("" ++ s') with s'. simpl in Hk.
    destruct s' as [|b s']; simpl; [exact Hk|].
    simpl in Hs. rewrite Hs. exact Hk.
  - simpl in Hl. apply andb_true_iff in Hl as [Ha Hl].
    rewrite sapp_cons. simpl. rewrite Ha.
    rewrite (IH s' (a :: acc) g k m Hl Hs Hk). reflexivity.
Qed.

Lemma all_in_digits v : any_in not_digit v = false -> all_in digit v = true.
Proof.
  induction v as [|a v IH]; [reflexivity|]. simpl. unfold not_digit at 1.
  intros H. apply orb_false_iff in H as [Ha Hv]. apply negb_false_iff in Ha.
  rewrite Ha, (IH Hv). reflexivity.
Qed.

Lemma match_split_digits a l :
  digit a = true -> all_in digit l = true ->
  match_with 2 split_pattern (String a l) = Some [Some (String a l); None].
Proof.
  intros Ha Hl. unfold match_with. simpl. rewrite Ha.
  rewrite <- (sapp_nil_r l) at 1.
  apply star_greedy; [exact Hl|reflexivity|].
  simpl. rewrite pushed_text. reflexivity.
Qed.

Lemma digits_round_trip key p text v :
  groups_all (avoids not_digit) p = true ->
  raw_value p text = Some v ->
  Weight (split_row (key, Some v)) = Some v /\ DV (split_row (key, Some v)) = None.
Proof.
  intros Hc Hv.
  pose proof (all_in_digits v (raw_value_avoids not_digit p text v Hc Hv)) as Hd.
  assert (Hne : v <> "").
  { revert Hv. unfold raw_value. destruct (search p text) as [g|]; [|discriminate].
    intros Hv. apply (first_truthy_some _ _ Hv). }
  destruct v as [|a l]; [contradiction|].
  simpl in Hd. apply andb_true_iff in Hd as [Ha Hl].
  unfold split_row, str_extract, search. cbn [snd Weight DV].
  change (ngroups split_pattern) with 2%nat.
  rewrite (match_found_by_search _ _ _ _ (match_split_digits a l Ha Hl)).
  split; reflexivity.
Qed.

(** X6. Whatever the text, the rows [servings_container] and [calories]
    carry a bare number: their [Weight] is their [Value], unchanged, and they
    have no [DV%]. *)
Theorem count_rows_round_trip (text : string) :
  Forall (fun r => Nutrient r ∈ count_keys -> Weight r = Value r /\ DV r = None)
         (extract_nutritional_info text).
Proof.
  unfold extract_nutritional_info, extract_data.
  apply Forall_fmap, Forall_fmap. unfold patterns.
  each_row; unfold compose; cbn [fst snd]; intros Hin;
    try (not_listed Hin);
    match goal with
    | |- context [raw_value ?p text] =>
        destruct (raw_value p text) as [v|] eqn:Hv;
        [ refine (digits_round_trip _ p text v _ Hv); vm_compute; reflexivity
        | split; reflexivity ]
    end.
Qed.

End MatchingProps.

(** ** Part VIII. Further properties of the lookup client *)

Module LookupProps.
Import FoodClassifier Scaling FoodClassifierProps Retrying.
Local Open Scope Q_scope.

(** *** The retry loop in closed form *)

Lemma failures_bound cfg server budget attempt :
  (failures cfg server budget attempt <= budget)%nat.
Proof.
  revert attempt. induction budget as [|b IH]; intros attempt; simpl; [lia|].
  destruct (retryable cfg (server attempt)); [|lia]. specialize (IH (S attempt)). lia.
Qed.

Lemma urlopen_closed_form cfg server budget : forall attempt delays,
  let f := failures cfg server budget attempt in
  urlopen cfg server budget attempt delays =
    (S (attempt + f),
     (delays ++ map (backoff_time cfg) (List.seq (S attempt) f))%list,
     match server (attempt + f)%nat with
     | Dropped => inl ConnectionError
     | Response status body =>
         if bool_decide (status ∈ status_forcelist cfg) then inl RetryError
         else inr (status, body)
     end).
Proof.
  induction budget as [|b IH]; intros attempt delays; cbv zeta.
  - simpl. rewrite Nat.add_0_r, app_nil_r.
    destruct (server attempt) as [status body|]; [|reflexivity].
    destruct (decide (status ∈ status_forcelist cfg)) as [Hin|Hnot].
    + rewrite (bool_decide_eq_true_2 _ Hin). reflexivity.
    + rewrite (bool_decide_eq_false_2 _ Hnot). reflexivity.
  - simpl. destruct (server attempt) as [status body|] eqn:Hs; simpl.
    + destruct (decide (status ∈ status_forcelist cfg)) as [Hin|Hnot].
      * rewrite (bool_decide_eq_true_2 _ Hin). rewrite IH. cbv zeta.
        rewrite <- app_assoc. simpl. rewrite Nat.add_succ_r. reflexivity.
      * rewrite (bool_decide_eq_false_2 _ Hnot). rewrite Nat.add_0_r, app_nil_r, Hs.
        rewrite (bool_decide_eq_false_2 _ Hnot). reflexivity.
    + rewrite IH. cbv zeta.
      rewrite <- app_assoc. simpl. rewrite Nat.add_succ_r. reflexivity.
Qed.

Lemma schedule_prefix f :
  (f <= 5)%nat -> map (backoff_time retries) (List.seq 1 f) = take f schedule.
Proof.
  intros Hf.
  assert (Hc : f = 0%nat \/ f = 1%nat \/ f = 2%nat \/ f = 3%nat \/ f = 4%nat \/ f = 5%nat)
    by lia.
  destruct Hc as [-> | [-> | [-> | [-> | [-> | ->]]]]]; reflexivity.
Qed.

Lemma fetch_closed_form server url st :
  let f := failures retries server 5 0 in
  fetch server url st
  = (Returned (answer retries (server f)), logged st (S f) url (take f schedule)).
Proof.
  cbv zeta. unfold fetch, session_get, bind, ret, wire_all.
  change (total retries) with 5%nat.
  rewrite (urlopen_closed_form retries server 5 0 []). cbv zeta.
  rewrite app_nil_l, schedule_prefix by apply failures_bound.
  change (0 + failures retries server 5 0)%nat with (failures retries server 5 0).
  unfold answer, logged.
  destruct (server (failures retries server 5 0)) as [status body|]; [|reflexivity].
  destruct (bool_decide (status ∈ status_forcelist retries)); reflexivity.
Qed.

Lemma total_delay_take f : total_delay (take f schedule) <= 30.
Proof.
  destruct (decide (f <= 5)%nat) as [Hf|Hf].
  - assert (Hc : f = 0%nat \/ f = 1%nat \/ f = 2%nat \/ f = 3%nat \/ f = 4%nat
                 \/ f = 5%nat) by lia.
    destruct Hc as [-> | [-> | [-> | [-> | [-> | ->]]]]]; vm_compute; discriminate.
  - rewrite take_ge by (simpl; lia). vm_compute. discriminate.
Qed.

(** X10. Against a server that neither redirects nor sends a
    [Retry-After] header (the replies of this model), and whatever it
    answers otherwise, a call sends [1 + f] requests, where [f] is the number
    of leading replies that are not kept (a status of the force list, or no
    reply), at most 5; the delays between them are the
    first [f] of 0, 2, 4, 8 and 16 seconds, 30 seconds at most in all; and
    the outcome of the [try] block is the one of the reply that ended the
    loop: [RetryError] or [ConnectionError] when that reply, the sixth, was
    not kept either, [HTTPError] on a 4xx or 5xx status, [JSONDecodeError]
    on a body that is not JSON, and the decoded body otherwise. *)
Theorem fetch_in_closed_form (server : nat -> reply) (url : string) (st : state) :
  let f := failures retries server 5 0 in
  fetch server url st
  = (Returned (answer retries (server f)), logged st (S f) url (take f schedule))
  /\ (f <= 5)%nat
  /\ (forall i, (i < f)%nat -> retryable retries (server i) = true)
  /\ ((f < 5)%nat -> retryable retries (server f) = false)
  /\ total_delay (take f schedule) <= 30.
Proof.
  cbv zeta. split; [apply fetch_closed_form|].
  split; [apply failures_bound|].
  split; [|split; [|apply total_delay_take]].
  - assert (H : forall budget attempt i,
              (i < failures retries server budget attempt)%nat ->
              retryable retries (server (attempt + i)%nat) = true).
    { induction budget as [|b IH]; intros attempt i; simpl; [lia|].
      destruct (retryable retries (server attempt)) eqn:E; [|lia].
      destruct i as [|i]; [rewrite Nat.add_0_r; intros _; exact E|].
      intros Hi. rewrite Nat.add_succ_r. apply (IH (S attempt) i). lia. }
    intros i Hi. exact (H 5%nat 0%nat i Hi).
  - assert (H : forall budget attempt,
              (failures retries server budget attempt < budget)%nat ->
              retryable retries
                (server (attempt + failures retries server budget attempt)%nat) = false).
    { induction budget as [|b IH]; intros attempt; simpl; [lia|].
      destruct (retryable retries (server attempt)) eqn:E.
      - intros Hlt. rewrite Nat.add_succ_r. apply (IH (S attempt)). lia.
      - intros _. rewrite Nat.add_0_r. exact E. }
    exact (H 5%nat 0%nat).
Qed.

(** *** Outcomes of [get_nutritional_facts] *)

(** X8. The [try] block guards the request only. When both arguments are
    there after the fallback, the request succeeds and the answer announces
    a count other than zero, an answer without [products] makes the method
    raise [KeyError] and an answer with an empty [products] makes it raise
    [IndexError]: the exception leaves the method, nothing is printed and
    the object is as before. *)
Theorem get_nutritional_facts_raises (server : nat -> reply) (food_name : option string)
    (q : option Q) (st st1 : state) (n : string) (w : Q) (data : api_data) :
  effective_name (self st) food_name = Some n ->
  effective_weight (self st) q = Some w ->
  fetch server (search_url n) st = (Returned (inr data), st1) ->
  default 0%Z (count data) <> 0%Z ->
  (products data = None ->
     get_nutritional_facts server food_name q st = (Raised (KeyError "products"), st1))
  /\ (products data = Some [] ->
        get_nutritional_facts server food_name q st = (Raised IndexError, st1))
  /\ stdout st1 = stdout st
  /\ self st1 = self st.
Proof.
  intros Hn Hw Hf Hc.
  assert (Hg : get_nutritional_facts server food_name q st
               = lookup_and_scale server n w st).
  { rewrite get_nutritional_facts_guard, Hn, Hw. reflexivity. }
  rewrite Hg, (lookup_after_fetch _ _ _ _ _ _ Hf).
  destruct (decide _); [contradiction|].
  split; [intros ->; reflexivity|]. split; [intros ->; reflexivity|].
  destruct (fetch_returns server (search_url n) st) as (k & ds & r & Hf' & _).
  rewrite Hf in Hf'. injection Hf' as _ ->. split; reflexivity.
Qed.

Lemma get_nutritional_facts_raises_witness :
  let o := {| uploaded_image_path := None; class_name := Some "ramen";
              max_weight := Some 300 |} in
  let data := {| count := Some 3%Z; products := Some [] |} in
  let server := fun _ : nat => Response 200 (Some data) in
  get_nutritional_facts server None None (init o)
  = (Raised IndexError,
     {| self := o; stdout := []; requests := [search_url "ramen"]; sleeps := [] |}).
Proof.
  cbv zeta.
  refine (proj1 (proj2 (get_nutritional_facts_raises
           (fun _ => Response 200 (Some {| count := Some 3%Z; products := Some [] |}))
           None None
           (init {| uploaded_image_path := None; class_name := Some "ramen";
                    max_weight := Some 300 |})
           {| self := {| uploaded_image_path := None; class_name := Some "ramen";
                         max_weight := Some 300 |};
              stdout := []; requests := [search_url "ramen"]; sleeps := [] |}
           "ramen" 300
           {| count := Some 3%Z; products := Some [] |} _ _ _ _)) _);
    [reflexivity|reflexivity|reflexivity|discriminate|reflexivity].
Defined.

(** X9. Whenever the [try] block ends in an exception (retries used up on
    force-list statuses or on dropped connections, a 4xx or 5xx status that
    is not retried, a body that is not JSON) the method prints the fetch
    error and returns [None]; a first reply that is kept, such as a 404, is
    reported after a single request. *)
Theorem fetch_errors_are_reported (server : nat -> reply) (food_name : option string)
    (q : option Q) (st : state) (n : string) (w : Q) (e : RequestException) :
  effective_name (self st) food_name = Some n ->
  effective_weight (self st) q = Some w ->
  answer retries (server (failures retries server 5 0)) = inl e ->
  get_nutritional_facts server food_name q st
  = (Returned None,
     printed (logged st (S (failures retries server 5 0)) (search_url n)
                (take (failures retries server 5 0) schedule))
             (FetchError e))
  /\ (retryable retries (server 0%nat) = false ->
      failures retries server 5 0 = 0%nat).
Proof.
  intros Hn Hw He. split.
  - rewrite get_nutritional_facts_guard, Hn, Hw.
    unfold lookup_and_scale, bind. rewrite fetch_closed_form. cbv zeta.
    rewrite He. reflexivity.
  - intros H. simpl. rewrite H. reflexivity.
Qed.

Lemma fetch_errors_are_reported_witness :
  let o := {| uploaded_image_path := None; class_name := Some "pizza";
              max_weight := None |} in
  get_nutritional_facts (fun _ => Response 404 None) None (Some 150) (init o)
  = (Returned None,
     {| self := o; stdout := [FetchError (HTTPError 404)];
        requests := [search_url "pizza"]; sleeps := [] |}).
Proof.
  cbv zeta.
  exact (proj1 (fetch_errors_are_reported (fun _ => Response 404 None) None (Some 150)
                  (init {| uploaded_image_path := None; class_name := Some "pizza";
                           max_weight := None |})
                  "pizza" 150 (HTTPError 404) eq_refl eq_refl eq_refl)).
Defined.

(** X7. [get_nutritional_facts] never changes the object, whatever the
    arguments and whatever comes back. It prints exactly one message when it
    returns [None], and nothing when it returns a record or raises. *)
Theorem get_nutritional_facts_frame (server : nat -> reply) (food_name : option string)
    (q : option Q) (st : state) :
  let out := fst (get_nutritional_facts server food_name q st) in
  let st' := snd (get_nutritional_facts server food_name q st) in
  self st' = self st
  /\ match out with
     | Returned None => exists m, stdout st' = (stdout st ++ [m])%list
     | Returned (Some _) | Raised _ => stdout st' = stdout st
     end.
Proof.
  cbv zeta. rewrite get_nutritional_facts_guard.
  destruct (effective_name (self st) food_name) as [n|].
  2:{ split; [reflexivity|]. exists ProvideBoth. reflexivity. }
  destruct (effective_weight (self st) q) as [w|].
  2:{ split; [reflexivity|]. exists ProvideBoth. reflexivity. }
  destruct (fetch_returns server (search_url n) st) as (k & ds & fetched & Hf & Hk).
  unfold lookup_and_scale, bind. rewrite Hf.
  destruct fetched as [e|data].
  { split; [reflexivity|]. eexists. reflexivity. }
  destruct (decide _).
  { split; [reflexivity|]. eexists. reflexivity. }
  unfold first_product, raise, ret.
  destruct (products data) as [[|p ps]|].
  - split; reflexivity.
  - destruct (decide _).
    + split; [reflexivity|]. eexists. reflexivity.
    + split; reflexivity.
  - split; reflexivity.
Qed.

(** *** Rounding, continued *)

(** On a tie the result is the even neighbour, whichever way the number is
    written. *)
Lemma round_half_even_tie (x : Q) :
  (2 * round_half_even x * Zpos (Qden x) = 2 * Qnum x + Zpos (Qden x)
   \/ 2 * round_half_even x * Zpos (Qden x) = 2 * Qnum x - Zpos (Qden x))%Z ->
  Z.even (round_half_even x) = true.
Proof.
  unfold round_half_even. destruct x as [n d]. simpl.
  pose proof (Z.div_mod n (Zpos d) ltac:(lia)) as Hdm.
  pose proof (Z.mod_pos_bound n (Zpos d) ltac:(lia)) as Hb.
  destruct (Z.compare_spec (2 * (n mod Zpos d)) (Zpos d)) as [He|Hl|Hg].
  - destruct (Z.even (n / Zpos d)) eqn:Hq.
    + intros _. exact Hq.
    + intros _. rewrite Z.even_add, Hq. reflexivity.
  - intros [H|H]; exfalso; nia.
  - intros [H|H]; exfalso; nia.
Qed.

Lemma round_half_even_mono (x y : Q) :
  x <= y -> (round_half_even x <= round_half_even y)%Z.
Proof.
  intros Hxy.
  pose proof (round_half_even_near x) as [X1 X2].
  pose proof (round_half_even_near y) as [Y1 Y2].
  destruct (Z_le_gt_dec (round_half_even x) (round_half_even y)) as [Hle|Hgt];
    [exact Hle|exfalso].
  assert (Hstep : (round_half_even x <= round_half_even y + 1)%Z).
  { rewrite Zle_Qle, inject_Z_plus. change (inject_Z 1) with 1. lra. }
  assert (Hx : round_half_even x = (round_half_even y + 1)%Z) by lia.
  assert (Ex : inject_Z (round_half_even x) == x + (1 # 2)).
  { apply Qle_antisym; [exact X2|].
    rewrite Hx, inject_Z_plus. change (inject_Z 1) with 1. lra. }
  assert (Ey : inject_Z (round_half_even y) == y - (1 # 2)).
  { apply Qle_antisym; [|exact Y1].
    assert (H : inject_Z (round_half_even x) == inject_Z (round_half_even y) + 1).
    { rewrite Hx, inject_Z_plus. reflexivity. }
    lra. }
  assert (Tx : Z.even (round_half_even x) = true).
  { apply round_half_even_tie. left. revert Ex.
    unfold Qeq, Qplus, inject_Z. destruct x as [n d]. simpl.
    rewrite ?Pos2Z.inj_mul. lia. }
  assert (Ty : Z.even (round_half_even y) = true).
  { apply round_half_even_tie. right. revert Ey.
    unfold Qeq, Qminus, Qplus, Qopp, inject_Z. destruct y as [n d]. simpl.
    rewrite ?Pos2Z.inj_mul. lia. }
  rewrite Hx, Z.even_add, Ty in Tx. discriminate.
Qed.

Lemma round_half_even_proper (x y : Q) :
  x == y -> round_half_even x = round_half_even y.
Proof.
  intros H. apply Z.le_antisymm; apply round_half_even_mono; rewrite H; apply Qle_refl.
Qed.

Lemma round2_mono (x y : Q) : x <= y -> round2 x <= round2 y.
Proof.
  intros H. unfold round2, Qle. simpl.
  assert (Hm : x * 100 <= y * 100) by lra.
  pose proof (round_half_even_mono _ _ Hm). lia.
Qed.

Lemma round2_proper (x y : Q) : x == y -> round2 x = round2 y.
Proof.
  intros H. unfold round2. f_equal. apply round_half_even_proper. rewrite H. reflexivity.
Qed.

(** *** The scaled amounts *)

(** X11. A heavier portion never reports less: for a field whose database
    amount is not negative, the rounded amount for the weight [w1] is at most
    the one for any weight [w2] above [w1]. *)
Theorem scaled_field_monotone (nm : gmap string Q) (f : string) (w1 w2 : Q) :
  (forall v, nm !! f = Some v -> 0 <= v) ->
  w1 <= w2 ->
  scaled_field nm w1 f <= scaled_field nm w2 f.
Proof.
  intros Hv Hw. unfold scaled_field, amount. apply round2_mono.
  assert (H0 : 0 <= default (0 : Q) (nm !! f)).
  { destruct (nm !! f) as [v|]; simpl; [exact (Hv v eq_refl)|apply Qle_refl]. }
  rewrite !(Qmult_comm (default (0 : Q) (nm !! f))).
  apply Qmult_le_compat_r; [|exact H0].
  unfold Qdiv. apply Qmult_le_compat_r; [exact Hw|discriminate].
Qed.

Lemma scaled_field_monotone_witness :
  let nm : gmap string Q := {[ "energy_100g" := 52 ]} in
  scaled_field nm 50 "energy_100g" <= scaled_field nm 150 "energy_100g".
Proof.
  cbv zeta. apply scaled_field_monotone.
  - intros v Hv. vm_compute in Hv. injection Hv as <-. discriminate.
  - discriminate.
Defined.

(** X12. Each reported amount is the exact product of the database amount
    (0 when the database has none) and a hundredth of the weight, moved to
    the nearest hundredth: it is a whole number of hundredths, within 0.005
    of the exact product, and equal to it when the exact product has at most
    two decimals; it does not depend on how the weight is written as a
    fraction; so a portion of 100 g reports a database amount of at most two
    decimals as it is. *)
Theorem scaled_field_faithful (nm : gmap string Q) (w : Q) (f : string) :
  let exact := default (0 : Q) (nm !! f) * (w / 100) in
  (exact - (1 # 200) <= scaled_field nm w f <= exact + (1 # 200))
  /\ (exists z, scaled_field nm w f = z # 100)
  /\ (forall z, exact == z # 100 -> scaled_field nm w f = z # 100)
  /\ (forall w', w == w' -> scaled_field nm w' f = scaled_field nm w f)
  /\ (forall z, nm !! f = Some (z # 100) -> scaled_field nm 100 f = z # 100).
Proof.
  cbv zeta. unfold scaled_field, amount.
  split; [apply round2_near|].
  split; [eexists; reflexivity|].
  split; [intros z Hz; apply round2_exact, Hz|].
  split.
  - intros w' Hw. apply round2_proper. rewrite Hw. reflexivity.
  - intros z Hz. rewrite Hz. apply round2_exact. simpl. field.
Qed.

(** *** The weight estimate, for any constants *)

Section EstimateProps.
Variable contour : Type.
Variable contourArea : contour -> Q.

Local Abbreviation weight := (weight_of contour contourArea).
Local Abbreviation estimate := (heaviest contour contourArea).

Lemma heaviest_bounds r h d l :
  0 <= estimate r h d l
  /\ Forall (fun c => weight r h d c <= estimate r h d l) l
  /\ (estimate r h d l = 0 \/ exists c, c ∈ l /\ estimate r h d l = weight r h d c).
Proof. exact (fold_keep_heavier contour contourArea r h d l 0). Qed.

(** The estimate of one run is at most the estimate of another when every
    weight of the first is matched by a weight of the second. *)
Lemma heaviest_le r1 h1 d1 l1 r2 h2 d2 l2 :
  (forall c, c ∈ l1 -> exists c', c' ∈ l2 /\ weight r1 h1 d1 c <= weight r2 h2 d2 c') ->
  estimate r1 h1 d1 l1 <= estimate r2 h2 d2 l2.
Proof.
  intros H.
  destruct (heaviest_bounds r1 h1 d1 l1) as (_ & _ & [->|(c & Hc & ->)]).
  - apply (heaviest_bounds r2 h2 d2 l2).
  - destruct (H c Hc) as (c' & Hc' & Hle).
    eapply Qle_trans; [exact Hle|].
    destruct (heaviest_bounds r2 h2 d2 l2) as (_ & Hall & _).
    rewrite Forall_forall in Hall. exact (Hall c' Hc').
Qed.

(** X13. For any constants, of any sign: the estimate is never negative;
    it grows, or stays, when contours are added; it depends on the set of
    contours only, not on their order or on repetitions; and it is 0 when no
    contour has a positive weight. *)
Theorem estimate_ignores_order (r h d : Q) (l1 l2 : list contour) :
  0 <= heaviest contour contourArea r h d l1
  /\ ((forall c, c ∈ l1 -> c ∈ l2) ->
      heaviest contour contourArea r h d l1 <= heaviest contour contourArea r h d l2)
  /\ ((forall c, c ∈ l1 <-> c ∈ l2) ->
      heaviest contour contourArea r h d l1 == heaviest contour contourArea r h d l2)
  /\ ((forall c, c ∈ l1 -> weight_of contour contourArea r h d c <= 0) ->
      heaviest contour contourArea r h d l1 = 0).
Proof.
  assert (Hsub : forall a b, (forall c, c ∈ a -> c ∈ b) ->
            estimate r h d a <= estimate r h d b).
  { intros a b H. apply heaviest_le. intros c Hc. exists c.
    split; [exact (H c Hc)|apply Qle_refl]. }
  split; [apply heaviest_bounds|]. split; [apply Hsub|]. split.
  - intros H. apply Qle_antisym; apply Hsub; intros c; apply H.
  - intros H. unfold heaviest.
    induction l1 as [|c l IH]; [reflexivity|]. simpl.
    assert (Hc : weight r h d c <= 0) by (apply H; left).
    assert (Hk : keep_heavier contour contourArea r h d 0 c = 0).
    { destruct (keep_heavier_cases contour contourArea r h d 0 c) as [[E _]|[_ Hlt]];
        [exact E|]. exfalso. apply (Qlt_not_le _ _ Hlt Hc). }
    rewrite Hk. apply IH. intros c' Hc'. apply H. right. exact Hc'.
Qed.

Lemma heaviest_scaled k r1 h1 d1 r2 h2 d2 l :
  0 <= k -> (forall c, weight r2 h2 d2 c == k * weight r1 h1 d1 c) ->
  estimate r2 h2 d2 l == k * estimate r1 h1 d1 l.
Proof.
  intros Hk Hw.
  destruct (heaviest_bounds r1 h1 d1 l) as (H1 & Hall1 & Hor1).
  destruct (heaviest_bounds r2 h2 d2 l) as (H2 & Hall2 & Hor2).
  rewrite Forall_forall in Hall1, Hall2.
  apply Qle_antisym.
  - destruct Hor2 as [->|(c & Hc & ->)].
    + apply Qmult_le_0_compat; assumption.
    + rewrite Hw. rewrite !(Qmult_comm k).
      apply Qmult_le_compat_r; [exact (Hall1 c Hc)|exact Hk].
  - destruct Hor1 as [->|(c & Hc & ->)].
    + rewrite Qmult_0_r. exact H2.
    + rewrite <- Hw. exact (Hall2 c Hc).
Qed.

(** X14. The estimate is proportional to the height and to the density,
    for a factor that is not negative, and to the square of the
    pixel-to-centimetre ratio, for any factor. *)
Theorem estimate_scales (k r h d : Q) (l : list contour) :
  0 <= k ->
  heaviest contour contourArea r (k * h) d l == k * heaviest contour contourArea r h d l
  /\ heaviest contour contourArea r h (k * d) l
     == k * heaviest contour contourArea r h d l
  /\ (forall c, heaviest contour contourArea (c * r) h d l
                == c ^ 2 * heaviest contour contourArea r h d l).
Proof.
  intros Hk. split; [|split].
  - apply heaviest_scaled; [exact Hk|]. intros c. unfold weight_of. ring.
  - apply heaviest_scaled; [exact Hk|]. intros c. unfold weight_of. ring.
  - intros c. apply heaviest_scaled; [apply Qsqr_nonneg|].
    intros c0. unfold weight_of. simpl. ring.
Qed.
End EstimateProps.

Lemma estimate_scales_witness :
  heaviest nat (fun n => inject_Z (Z.of_nat n)) (1 # 10) (3 * 2) (9 # 10) [400%nat; 900%nat]
  == 3 * heaviest nat (fun n => inject_Z (Z.of_nat n)) (1 # 10) 2 (9 # 10) [400%nat; 900%nat].
Proof.
  apply (estimate_scales nat (fun n => inject_Z (Z.of_nat n)) 3 (1 # 10) 2 (9 # 10)
           [400%nat; 900%nat]).
  discriminate.
Defined.

(** *** From the weight estimate to the lookup *)

(** What the method returns does not depend on the log. *)
Lemma lookup_outcome server n w st :
  fst (lookup_and_scale server n w st)
  = match answer retries (server (failures retries server 5 0)) with
    | inl _ => Returned None
    | inr data =>
        if decide (default 0%Z (count data) = 0%Z) then Returned None
        else match products data with
             | None => Raised (KeyError "products")
             | Some [] => Raised IndexError
             | Some (p :: _) =>
                 if decide (size (default ∅ (nutriments p)) = 0%nat) then Returned None
                 else Returned (Some (nutritional_facts (default ∅ (nutriments p)) w))
             end
    end.
Proof.
  pose proof (fetch_closed_form server (search_url n) st) as Hf. cbv zeta in Hf.
  destruct (answer retries (server (failures retries server 5 0))) as [e|data].
  - unfold lookup_and_scale, bind. rewrite Hf. reflexivity.
  - rewrite (lookup_after_fetch _ _ _ _ _ _ Hf).
    destruct (decide _); [reflexivity|].
    destruct (products data) as [[|p ps]|]; try reflexivity.
    destruct (decide _); reflexivity.
Qed.

Lemma get_nutritional_facts_outcome server food_name q st1 st2 :
  self st1 = self st2 ->
  fst (get_nutritional_facts server food_name q st1)
  = fst (get_nutritional_facts server food_name q st2).
Proof.
  intros H. rewrite !get_nutritional_facts_guard, H.
  destruct (effective_name (self st2) food_name) as [n|]; [|reflexivity].
  destruct (effective_weight (self st2) q) as [w|]; [|reflexivity].
  rewrite !lookup_outcome. reflexivity.
Qed.

Section Pipeline.
Variable contour : Type.
Variable find_contours : string -> option (list contour).
Variable contourArea : contour -> Q.

(** X15. [estimate_weight] and then [get_nutritional_facts] without a
    weight. Without an uploaded image the estimate only prints its message;
    with a file that OpenCV cannot read it raises [cv2.error] and leaves
    the state as it was: in both cases a later lookup behaves as if the
    estimate had not been called, with the weight stored before, if any.
    With a file that OpenCV reads, the lookup uses the estimate just stored,
    whatever weight was stored before; the food name in force is not
    touched; and a weight that is passed and is not zero still takes
    precedence over the estimate. *)
Theorem estimate_then_lookup (r h d : Q) (server : nat -> reply)
    (food_name : option string) (st : state) :
  let run := estimate_weight contour find_contours contourArea r h d st in
  match uploaded_image_path (self st) with
  | None =>
      run = (Returned tt, printed st PleaseUpload)
      /\ forall q, fst (get_nutritional_facts server food_name q (snd run))
                   = fst (get_nutritional_facts server food_name q st)
  | Some path =>
      match find_contours path with
      | None => run = (Raised Cv2Error, st)
      | Some contours =>
          let est := heaviest contour contourArea r h d contours in
          fst run = Returned tt
          /\ max_weight (self (snd run)) = Some est
          /\ effective_weight (self (snd run)) None = Some est
          /\ effective_name (self (snd run)) food_name
             = effective_name (self st) food_name
          /\ (forall n, effective_name (self st) food_name = Some n ->
                fst (get_nutritional_facts server food_name None (snd run))
                = fst (lookup_and_scale server n est st))
          /\ (forall q, truthy_num (Some q) = true ->
                effective_weight (self (snd run)) (Some q) = Some q)
      end
  end.
Proof.
  cbv zeta. unfold estimate_weight, bind, get_self, raise.
  destruct (uploaded_image_path (self st)) as [path|] eqn:E.
  - destruct (find_contours path) as [contours|]; [|reflexivity].
    unfold set_max_weight, print.
    cbn [snd fst self max_weight class_name uploaded_image_path].
    split; [reflexivity|]. split; [reflexivity|]. split; [reflexivity|].
    split; [reflexivity|]. split.
    + intros n Hn. rewrite get_nutritional_facts_guard.
      cbn [snd fst self max_weight class_name uploaded_image_path].
      change (effective_name _ food_name) with (effective_name (self st) food_name).
      rewrite Hn. change (effective_weight _ None)
        with (Some (heaviest contour contourArea r h d contours)).
      rewrite !lookup_outcome. reflexivity.
    + intros q Hq. unfold effective_weight, py_or. rewrite Hq. reflexivity.
  - split; [reflexivity|]. intros q.
    apply get_nutritional_facts_outcome. reflexivity.
Qed.
End Pipeline.

End LookupProps.

(** ** Part IX. The objects across calls *)

Module ObjectProps.
Import FoodClassifier Scaling FoodClassifierProps Retrying LookupProps.
Import LabelExtractorObject Prediction.
Local Open Scope Q_scope.

(** *** A [LabelExtractor] over a session *)

Section Session.
Variable image_to_string : string -> option string.

Local Abbreviation frame_of :=
  (fun text : string => [Heading; Frame (LabelExtractor.extract_nutritional_info text)]).
Local Abbreviation after_reading :=
  (fun (_ : LabelExtractor) (text : string) =>
     {| extracted_text := Some text;
        df_transposed := Some (LabelExtractor.extract_nutritional_info text) |}).

Lemma process_labels_fold files : forall self,
  process_labels image_to_string self files
  = (fold_left after_reading (omap image_to_string files) self,
     flat_map frame_of (omap image_to_string files)).
Proof.
  induction files as [|file files IH]; intros self; [reflexivity|].
  cbn [process_labels omap list_omap]. unfold process_label.
  destruct (image_to_string file) as [text|]; [|apply IH].
  cbn. rewrite IH. reflexivity.
Qed.

Lemma fold_after_reading texts : forall self,
  fold_left after_reading texts self
  = match last texts with
    | Some text => after_reading self text
    | None => self
    end.
Proof.
  induction texts as [|text texts IH] using rev_ind; intros self; [reflexivity|].
  rewrite fold_left_app, last_snoc. reflexivity.
Qed.

(** X16. A session that calls [process_label] on one file after the
    other, starting from a new object, a call that raises leaving the object
    as it was: the text kept is the one of the last file that could be read;
    the table kept is the table of that text; [show_table] reports that
    there is no data exactly when no file could be read; and what the session
    displayed is the heading and the table of each file read, in order. *)
Theorem session_shows_last_label (files : list string) :
  let self := fst (process_labels image_to_string new files) in
  let out := snd (process_labels image_to_string new files) in
  let texts := omap image_to_string files in
  extracted_text self = last texts
  /\ df_transposed self
     = LabelExtractor.extract_nutritional_info <$> extracted_text self
  /\ (show_table self = [NoDataToDisplay] <-> texts = [])
  /\ out = flat_map (fun text =>
             [Heading; Frame (LabelExtractor.extract_nutritional_info text)]) texts.
Proof.
  cbv zeta. rewrite process_labels_fold, fold_after_reading. cbn [fst snd].
  destruct (last (omap image_to_string files)) as [text|] eqn:E.
  - split; [reflexivity|]. split; [reflexivity|]. split; [|reflexivity].
    split; [discriminate|]. intros H. rewrite H in E. discriminate.
  - split; [reflexivity|]. split; [reflexivity|]. split; [|reflexivity].
    split; [|reflexivity]. intros _.
    destruct (omap image_to_string files) as [|t ts] using rev_ind; [reflexivity|].
    rewrite last_snoc in E. discriminate.
Qed.
End Session.

(** *** [predict_image] *)

Lemma argmax_from_first_max rest : forall pre best best_score,
  pre !! best = Some best_score ->
  (forall j y, pre !! j = Some y -> y <= best_score) ->
  (forall j y, (j < best)%nat -> pre !! j = Some y -> y < best_score) ->
  first_max (pre ++ rest) (argmax_from best best_score (length pre) rest).
Proof.
  induction rest as [|x rest IH]; intros pre best bs Hb Hall Hbefore.
  - rewrite app_nil_r. exists bs. auto.
  - assert (Hlt : (best < length pre)%nat) by (apply lookup_lt_is_Some; eauto).
    cbn [argmax_from].
    replace (pre ++ x :: rest)%list with ((pre ++ [x]) ++ rest)%list
      by (rewrite <- app_assoc; reflexivity).
    replace (S (length pre)) with (length (pre ++ [x]))
      by (rewrite length_app; simpl; lia).
    destruct (x ?= bs) eqn:E.
    + apply Qeq_alt in E. apply IH.
      * rewrite lookup_app_l by exact Hlt. exact Hb.
      * intros j y Hj. apply lookup_app_Some in Hj as [Hj|[_ Hj]]; [eauto|].
        apply list_lookup_singleton_Some in Hj as [_ <-]. rewrite E. apply Qle_refl.
      * intros j y Hjb Hj. rewrite lookup_app_l in Hj by lia. eauto.
    + apply Qlt_alt in E. apply IH.
      * rewrite lookup_app_l by exact Hlt. exact Hb.
      * intros j y Hj. apply lookup_app_Some in Hj as [Hj|[_ Hj]]; [eauto|].
        apply list_lookup_singleton_Some in Hj as [_ <-]. apply Qlt_le_weak, E.
      * intros j y Hjb Hj. rewrite lookup_app_l in Hj by lia. eauto.
    + apply Qgt_alt in E. apply IH.
      * rewrite lookup_app_r by lia. rewrite Nat.sub_diag. reflexivity.
      * intros j y Hj. apply lookup_app_Some in Hj as [Hj|[_ Hj]].
        -- apply Qlt_le_weak. eapply Qle_lt_trans; [exact (Hall _ _ Hj)|exact E].
        -- apply list_lookup_singleton_Some in Hj as [_ <-]. apply Qle_refl.
      * intros j y Hjb Hj. rewrite lookup_app_l in Hj by exact Hjb.
        eapply Qle_lt_trans; [exact (Hall _ _ Hj)|exact E].
Qed.

Lemma argmax_first_max scores i :
  argmax scores = Some i -> first_max scores i /\ (i < length scores)%nat.
Proof.
  destruct scores as [|x rest]; [discriminate|]. intros [= <-].
  assert (H : first_max ([x] ++ rest) (argmax_from 0 x (length [x]) rest)).
  { apply argmax_from_first_max.
    - reflexivity.
    - intros j y Hj. apply list_lookup_singleton_Some in Hj as [_ <-]. apply Qle_refl.
    - intros j y Hj. lia. }
  split; [exact H|]. destruct H as (y & Hy & _).
  apply lookup_lt_is_Some. eauto.
Qed.

Lemma first_max_unique scores i j :
  first_max scores i -> first_max scores j -> i = j.
Proof.
  intros (x & Hx & Hallx & Hbx) (y & Hy & Hally & Hby).
  destruct (Nat.lt_trichotomy i j) as [Hlt|[Heq|Hgt]]; [exfalso|exact Heq|exfalso].
  - apply (Qlt_not_le _ _ (Hby i x Hlt Hx)). exact (Hallx j y Hy).
  - apply (Qlt_not_le _ _ (Hbx j y Hgt Hy)). exact (Hally i x Hx).
Qed.

Lemma argmax_of_first_max scores i : first_max scores i -> argmax scores = Some i.
Proof.
  intros Hi. destruct (argmax scores) as [j|] eqn:Ha.
  - f_equal. apply (first_max_unique scores); [|exact Hi].
    apply (argmax_first_max _ _ Ha).
  - destruct scores; [|discriminate]. destruct Hi as (x & Hx & _). discriminate.
Qed.

(** X17. [predict_image] without an uploaded image only prints its
    message. With one, it raises, and changes nothing, when the file cannot
    be read as an image, when the score vector is empty, and when the class
    list is too short for the winning index; otherwise it stores the class
    name at the index of the first largest score and changes nothing else,
    and then prints it, unless drawing the figure raises: the class name is
    stored all the same. A score vector that is not empty has a first
    largest entry, within its length. *)
Theorem predict_image_picks_first_best (class_names : list string)
    (predict : string -> option (list Q)) (show_image : string -> bool)
    (o : FoodClassifier) :
  match uploaded_image_path o with
  | None => predict_image class_names predict show_image o = (o, [PleaseUploadFirst], None)
  | Some path =>
      match predict path with
      | None => predict_image class_names predict show_image o = (o, [], Some ImageError)
      | Some scores =>
          (scores = [] ->
             predict_image class_names predict show_image o = (o, [], Some ValueError))
          /\ (scores <> [] -> exists i, first_max scores i /\ (i < length scores)%nat)
          /\ (forall i, first_max scores i ->
                match class_names !! i with
                | None =>
                    predict_image class_names predict show_image o
                    = (o, [], Some ClassIndexError)
                | Some name =>
                    predict_image class_names predict show_image o
                    = if show_image path
                      then ({| uploaded_image_path := Some path; class_name := Some name;
                               max_weight := max_weight o |},
                            [PredictedClass name], None)
                      else ({| uploaded_image_path := Some path; class_name := Some name;
                               max_weight := max_weight o |},
                            [], Some DisplayError)
                end)
      end
  end.
Proof.
  unfold predict_image.
  destruct (uploaded_image_path o) as [path|] eqn:Hp; [|reflexivity].
  destruct (predict path) as [scores|]; [|reflexivity].
  split; [intros ->; reflexivity|]. split.
  - intros Hne. destruct (argmax scores) as [i|] eqn:Ha.
    + exists i. exact (argmax_first_max _ _ Ha).
    + destruct scores; [contradiction|discriminate].
  - intros i Hi. rewrite (argmax_of_first_max _ _ Hi).
    destruct (class_names !! i) as [name|]; reflexivity.
Qed.

(** *** What a lookup reads of the object *)

Lemma get_nutritional_facts_reads server food_name q st1 st2 :
  class_name (self st1) = class_name (self st2) ->
  max_weight (self st1) = max_weight (self st2) ->
  fst (get_nutritional_facts server food_name q st1)
  = fst (get_nutritional_facts server food_name q st2).
Proof.
  intros Hc Hw. rewrite !get_nutritional_facts_guard.
  unfold effective_name, effective_weight. rewrite Hc, Hw.
  destruct (py_or truthy_str food_name (class_name (self st2))) as [n|]; [|reflexivity].
  destruct (py_or truthy_num q (max_weight (self st2))) as [w|]; [|reflexivity].
  rewrite !lookup_outcome. reflexivity.
Qed.

(** X18. [upload_image] raises exactly when nothing was uploaded.
    Otherwise it records the first file name, prints it, and keeps the class
    name and the weight of the image before: a lookup made right after a new
    upload, before [predict_image] and [estimate_weight] are run again,
    returns what it returned before the upload. *)
Theorem upload_keeps_stored_results (uploaded : list string) (o : FoodClassifier) :
  (upload_image uploaded o = None <-> uploaded = [])
  /\ forall o' out,
       upload_image uploaded o = Some (o', out) ->
       exists path,
         head uploaded = Some path
         /\ uploaded_image_path o' = Some path
         /\ out = [Uploaded path]
         /\ class_name o' = class_name o
         /\ max_weight o' = max_weight o
         /\ forall server food_name q st st',
              self st = o -> self st' = o' ->
              fst (get_nutritional_facts server food_name q st')
              = fst (get_nutritional_facts server food_name q st).
Proof.
  destruct uploaded as [|path more]; cbn.
  - split; [split; reflexivity|]. intros o' out [=].
  - split; [split; discriminate|]. intros o' out [= <- <-].
    exists path. cbn. repeat (split; [reflexivity|]).
    intros server food_name q st st' Hst Hst'.
    apply get_nutritional_facts_reads; rewrite Hst, Hst'; reflexivity.
Qed.

(** *** The four steps of the notebook, in order *)

Section Workflow.
Variable class_names : list string.
Variable predict : string -> option (list Q).
Variable show_image : string -> bool.
Variable contour : Type.
Variable find_contours : string -> option (list contour).
Variable contourArea : contour -> Q.

(** X19. [upload_image], [predict_image], [estimate_weight] and then
    [get_nutritional_facts()] with no argument: when the first three go
    through without an exception, the object ends up holding the first
    uploaded file name, the class name at the index of the first largest
    score of that image, and the weight estimate of that image; and the
    lookup is the one for that class name and that weight. *)
Theorem notebook_workflow (uploaded : list string) (o0 o1 o2 : FoodClassifier)
    (out1 out2 : list predict_message) (r h d : Q) (server : nat -> reply) (st : state) :
  upload_image uploaded o0 = Some (o1, out1) ->
  predict_image class_names predict show_image o1 = (o2, out2, None) ->
  self st = o2 ->
  fst (estimate_weight contour find_contours contourArea r h d st) = Returned tt ->
  exists path scores i name contours,
    head uploaded = Some path
    /\ predict path = Some scores
    /\ first_max scores i
    /\ class_names !! i = Some name
    /\ find_contours path = Some contours
    /\ self (snd (estimate_weight contour find_contours contourArea r h d st))
       = {| uploaded_image_path := Some path; class_name := Some name;
            max_weight := Some (heaviest contour contourArea r h d contours) |}
    /\ fst (get_nutritional_facts server None None
              (snd (estimate_weight contour find_contours contourArea r h d st)))
       = fst (lookup_and_scale server name
                (heaviest contour contourArea r h d contours) st).
Proof.
  intros Hup Hpred Hst Hest.
  destruct uploaded as [|path more]; [discriminate|].
  injection Hup as <- <-.
  unfold predict_image in Hpred. cbn [uploaded_image_path] in Hpred.
  destruct (predict path) as [scores|] eqn:Hscores; [|discriminate].
  destruct (argmax scores) as [i|] eqn:Ha; [|discriminate].
  destruct (class_names !! i) as [name|] eqn:Hname; [|discriminate].
  destruct (show_image path); [|discriminate].
  injection Hpred as <- _.
  revert Hest. unfold estimate_weight, bind, get_self, raise. rewrite Hst.
  cbn [uploaded_image_path].
  destruct (find_contours path) as [contours|] eqn:Hc; [|discriminate].
  intros _. exists path, scores, i, name, contours.
  split; [reflexivity|]. split; [exact Hscores|].
  split; [exact (proj1 (argmax_first_max _ _ Ha))|].
  split; [exact Hname|]. split; [exact Hc|].
  unfold set_max_weight, print.
  cbn [snd fst self max_weight class_name uploaded_image_path]. rewrite Hst.
  split; [reflexivity|].
  rewrite get_nutritional_facts_guard.
  cbn [snd fst self max_weight class_name uploaded_image_path].
  change (effective_name _ None) with (Some name).
  change (effective_weight _ None)
    with (Some (heaviest contour contourArea r h d contours)).
  cbv beta iota. rewrite !lookup_outcome. reflexivity.
Qed.
End Workflow.

Lemma notebook_workflow_witness :
  let o0 := {| uploaded_image_path := None; class_name := None; max_weight := None |} in
  let o2 := {| uploaded_image_path := Some "lunch.jpg"; class_name := Some "pizza";
               max_weight := None |} in
  let area := fun n : nat => inject_Z (Z.of_nat n) in
  let find := fun _ : string => Some [400%nat; 2500%nat] in
  let nm : gmap string Q := {[ "energy_100g" := 266 ]} in
  let server := fun _ : nat => Response 200 (Some (one_product (Some nm))) in
  upload_image ["lunch.jpg"; "dinner.jpg"] o0
  = Some ({| uploaded_image_path := Some "lunch.jpg"; class_name := None;
             max_weight := None |}, [Uploaded "lunch.jpg"])
  /\ (exists path scores i name contours,
        head ["lunch.jpg"; "dinner.jpg"] = Some path
        /\ Some [1 # 10; 7 # 10; 2 # 10] = Some scores
        /\ first_max scores i
        /\ ["apple"; "pizza"; "salad"] !! i = Some name
        /\ find path = Some contours
        /\ self (snd (estimate_weight nat find area (1 # 10) 2 (9 # 10) (init o2)))
           = {| uploaded_image_path := Some path; class_name := Some name;
                max_weight := Some (heaviest nat area (1 # 10) 2 (9 # 10) contours) |}
        /\ fst (get_nutritional_facts server None None
                  (snd (estimate_weight nat find area (1 # 10) 2 (9 # 10) (init o2))))
           = fst (lookup_and_scale server name
                    (heaviest nat area (1 # 10) 2 (9 # 10) contours) (init o2)))
  /\ fst (get_nutritional_facts server None None
            (snd (estimate_weight nat find area (1 # 10) 2 (9 # 10) (init o2))))
     = Returned (Some [ ("Calories (kcal)", 11970 # 100); ("Fat (g)", 0 # 100);
                        ("Protein (g)", 0 # 100); ("Carbohydrates (g)", 0 # 100);
                        ("Fiber (g)", 0 # 100); ("Sugars (g)", 0 # 100);
                        ("Sodium (mg)", 0 # 100) ]).
Proof.
  cbv zeta. split; [reflexivity|]. split; [|vm_compute; reflexivity].
  exact (notebook_workflow ["apple"; "pizza"; "salad"]
           (fun _ => Some [1 # 10; 7 # 10; 2 # 10]) (fun _ => true)
           nat (fun _ => Some [400%nat; 2500%nat])
           (fun n : nat => inject_Z (Z.of_nat n))
           ["lunch.jpg"; "dinner.jpg"]
           {| uploaded_image_path := None; class_name := None; max_weight := None |}
           {| uploaded_image_path := Some "lunch.jpg"; class_name := None;
              max_weight := None |}
           {| uploaded_image_path := Some "lunch.jpg"; class_name := Some "pizza";
              max_weight := None |}
           [Uploaded "lunch.jpg"] [PredictedClass "pizza"]
           (1 # 10) 2 (9 # 10)
           (fun _ => Response 200 (Some (one_product (Some {[ "energy_100g" := 266 ]}))))
           (init {| uploaded_image_path := Some "lunch.jpg"; class_name := Some "pizza";
                    max_weight := None |})
           eq_refl eq_refl eq_refl eq_refl).
Defined.

End ObjectProps.
